(** * Shred: particle motion and keyboard placement of particles

    A shallow embedding of [js/model/Particle.js] and
    [js/view/ElectronShellView.js], with the properties of the motion
    controller ([Particle.step]) and of the keyboard placement protocol
    (the two keydown listeners and [accessibleSelect]).

    Numbers.  A JavaScript number is an IEEE 754 double.  [Binary64.step]
    is [Particle.step] on doubles: the arithmetic, the square root and the
    comparisons are those of binary64, and [Math.atan2], [Math.cos] and
    [Math.sin], whose results the language leaves to the engine, are
    parameters.  What is said of the code about distances travelled and
    about arrival is said of [Binary64.step].  The definitions outside
    [Binary64] read the same code in exact arithmetic (no rounding, the
    exact functions); the statements proved of them do not depend on the
    difference, or say that they are about exact arithmetic. *)

From Stdlib Require Import Floats QArith Qpower.
From Stdlib Require Import Reals Lra Lia ZArith Bool List String.
Import ListNotations.

Open Scope R_scope.

(** ** DOT/Vector2, the part of it that the two files call *)

Module Vector2.

Record t : Type := mk { x : R; y : R }.

Definition ZERO : t := mk 0 0.

(** [v.distance( w )]: the Euclidean distance. *)
Definition distance (v w : t) : R :=
  sqrt ((x v - x w) * (x v - x w) + (y v - y w) * (y v - y w)).

(** [v.plus( w )] *)
Definition plus (v w : t) : t := mk (x v + x w) (y v + y w).

(** [v.times( s )] *)
Definition times (v : t) (s : R) : t := mk (x v * s) (y v * s).

(** [Vector2.createPolar( magnitude, angle )] *)
Definition createPolar (magnitude angle : R) : t :=
  mk (magnitude * cos angle) (magnitude * sin angle).

End Vector2.

Abbreviation Vector2 := Vector2.t.

(** [Math.atan2( y, x )] in exact arithmetic; the value at the origin is the
    one JavaScript gives for two positive zeros. *)
Definition atan2 (y x : R) : R :=
  if Rlt_dec 0 x then atan (y / x)
  else if Rlt_dec x 0 then
    if Rle_dec 0 y then atan (y / x) + PI else atan (y / x) - PI
  else if Rlt_dec 0 y then PI / 2
  else if Rlt_dec y 0 then - (PI / 2)
  else 0.

(** ** js/model/Particle.js *)

Definition DEFAULT_PARTICLE_VELOCITY : R := 200.

(** A particle: the constructor's properties, and the [isAccessibleControlled]
    field that the view adds to the object ([None] while it is undefined). *)
Record Particle : Type := mkParticle {
  type : string;
  positionProperty : Vector2;
  destinationProperty : Vector2;
  radiusProperty : R;
  velocityProperty : R;
  userControlledProperty : bool;
  zLayerProperty : Z;
  isAccessibleControlled : option bool
}.

Definition set_positionProperty (v : Vector2) (p : Particle) : Particle :=
  mkParticle (type p) v (destinationProperty p) (radiusProperty p)
    (velocityProperty p) (userControlledProperty p) (zLayerProperty p)
    (isAccessibleControlled p).

Definition set_destinationProperty (v : Vector2) (p : Particle) : Particle :=
  mkParticle (type p) (positionProperty p) v (radiusProperty p)
    (velocityProperty p) (userControlledProperty p) (zLayerProperty p)
    (isAccessibleControlled p).

Definition set_userControlledProperty (b : bool) (p : Particle) : Particle :=
  mkParticle (type p) (positionProperty p) (destinationProperty p)
    (radiusProperty p) (velocityProperty p) b (zLayerProperty p)
    (isAccessibleControlled p).

Definition set_isAccessibleControlled (b : option bool) (p : Particle)
  : Particle :=
  mkParticle (type p) (positionProperty p) (destinationProperty p)
    (radiusProperty p) (velocityProperty p) (userControlledProperty p)
    (zLayerProperty p) b.

(** [new Particle( type, options )], with the radius the constructor reads
    from ShredConstants passed in. *)
Definition newParticle (ty : string) (radius : R) : Particle :=
  mkParticle ty Vector2.ZERO Vector2.ZERO radius DEFAULT_PARTICLE_VELOCITY
    false 0%Z None.

(** [moveImmediatelyToDestination] *)
Definition moveImmediatelyToDestination (this : Particle) : Particle :=
  set_positionProperty (destinationProperty this) this.

(** [step( dt )] *)
Definition step (dt : R) (this : Particle) : Particle :=
  if negb (userControlledProperty this) then
    let position := positionProperty this in
    let destination := destinationProperty this in
    let velocity := velocityProperty this in
    let distanceToDestination := Vector2.distance position destination in
    if Rgt_dec distanceToDestination (dt * velocity) then
      let stepMagnitude := velocity * dt in
      let stepAngle :=
        atan2 (Vector2.y destination - Vector2.y position)
              (Vector2.x destination - Vector2.x position) in
      let stepVector := Vector2.createPolar stepMagnitude stepAngle in
      set_positionProperty (Vector2.plus position stepVector) this
    else if Rgt_dec distanceToDestination 0 then
      moveImmediatelyToDestination this
    else this
  else this.

(** What a call completes with: a value, or a thrown error. *)
Inductive JSError : Type :=
| AssertionError (message : string)
| TypeError (message : string).

Inductive Completion (A : Type) : Type :=
| Normal (a : A)
| Thrown (e : JSError).
Arguments Normal {A} a.
Arguments Thrown {A} e.

(** The values a caller can pass where a Vector2 is expected. *)
Inductive JSValue : Type :=
| JSUndefined
| JSNull
| JSNumber (r : R)
| JSPlainObject (px py : R)      (* an object literal { x: px, y: py } *)
| JSVector2 (v : Vector2).

(** [newPosition instanceof Vector2] *)
Definition instanceofVector2 (v : JSValue) : option Vector2 :=
  match v with
  | JSVector2 w => Some w
  | _ => None
  end.

(** [setPositionAndDestination( newPosition )].  The global [assert] is null
    when assertions are disabled and throws on a false condition when they
    are enabled: [assertEnabled] says which. *)
Definition setPositionAndDestination (assertEnabled : bool)
    (newPosition : JSValue) (this : Particle) : Completion Particle :=
  match instanceofVector2 newPosition with
  | Some v =>
      Normal (moveImmediatelyToDestination (set_destinationProperty v this))
  | None =>
      if assertEnabled
      then Thrown (AssertionError "Attempt to set non-vector position.")
      else Normal this
  end.

(** [n] calls of [step] with the same [dt]. *)
Fixpoint steps (n : nat) (dt : R) (p : Particle) : Particle :=
  match n with
  | O => p
  | S k => steps k dt (step dt p)
  end.

(** The least integer that is not below [r]. *)
Definition ceil (r : R) : Z := (1 - up (- r))%Z.

(** The point that the moving branch of [step] computes: a polar step of
    magnitude [s] from [v], at the angle of [w - v]. *)
Definition polarStep (v w : Vector2) (s : R) : Vector2 :=
  Vector2.plus v
    (Vector2.createPolar s
       (atan2 (Vector2.y w - Vector2.y v) (Vector2.x w - Vector2.x v))).

(** The point at distance [s] from [v] on the straight line from [v] to [w]. *)
Definition towards (v w : Vector2) (s : R) : Vector2 :=
  Vector2.mk
    (Vector2.x v + s / Vector2.distance v w * (Vector2.x w - Vector2.x v))
    (Vector2.y v + s / Vector2.distance v w * (Vector2.y w - Vector2.y v)).

(** ** js/model/Particle.js on doubles *)

Module Binary64.

(** The functions of [Math] that [step] calls, as the engine computes
    them. *)
Record Math : Type := mkMath {
  atan2 : float -> float -> float;
  cos : float -> float;
  sin : float -> float
}.

Module Vector2.

Record t : Type := mk { x : float; y : float }.

Definition ZERO : t := mk 0 0.

(** [v.distance( w )]; [Math.sqrt] is the correctly rounded square root,
    as the engines compute it. *)
Definition distance (v w : t) : float :=
  PrimFloat.sqrt ((x v - x w) * (x v - x w) + (y v - y w) * (y v - y w)).

(** [v.plus( w )] *)
Definition plus (v w : t) : t := mk (x v + x w) (y v + y w).

(** [Vector2.createPolar( magnitude, angle )] *)
Definition createPolar (M : Math) (magnitude angle : float) : t :=
  mk (magnitude * cos M angle) (magnitude * sin M angle).

End Vector2.

Definition DEFAULT_PARTICLE_VELOCITY : float := 200.

Record Particle : Type := mkParticle {
  type : string;
  positionProperty : Vector2.t;
  destinationProperty : Vector2.t;
  radiusProperty : float;
  velocityProperty : float;
  userControlledProperty : bool;
  zLayerProperty : Z;
  isAccessibleControlled : option bool
}.

Definition set_positionProperty (v : Vector2.t) (p : Particle) : Particle :=
  mkParticle (type p) v (destinationProperty p) (radiusProperty p)
    (velocityProperty p) (userControlledProperty p) (zLayerProperty p)
    (isAccessibleControlled p).

(** [moveImmediatelyToDestination] *)
Definition moveImmediatelyToDestination (this : Particle) : Particle :=
  set_positionProperty (destinationProperty this) this.

(** [step( dt )].  [a > b] is [b <? a]: false when either side is not a
    number. *)
Definition step (M : Math) (dt : float) (this : Particle) : Particle :=
  if negb (userControlledProperty this) then
    let position := positionProperty this in
    let destination := destinationProperty this in
    let velocity := velocityProperty this in
    let distanceToDestination := Vector2.distance position destination in
    if (dt * velocity <? distanceToDestination)%float then
      let stepMagnitude := (velocity * dt)%float in
      let stepAngle :=
        atan2 M (Vector2.y destination - Vector2.y position)
                (Vector2.x destination - Vector2.x position) in
      let stepVector := Vector2.createPolar M stepMagnitude stepAngle in
      set_positionProperty (Vector2.plus position stepVector) this
    else if (0 <? distanceToDestination)%float then
      moveImmediatelyToDestination this
    else this
  else this.

(** [n] calls of [step] with the same [dt]. *)
Fixpoint steps (M : Math) (n : nat) (dt : float) (p : Particle) : Particle :=
  match n with
  | O => p
  | S k => steps M k dt (step M dt p)
  end.

(** What the language fixes of the three functions at a zero angle:
    [Math.atan2( +0, x )] is [+0] for [x > 0], [Math.cos( +0 )] is [1] and
    [Math.sin( +0 )] is [+0]. *)
Definition exactAtZero (M : Math) : Prop :=
  (forall x : float, (0 <? x)%float = true -> atan2 M 0 x = 0%float) /\
  cos M 0 = 1%float /\
  sin M 0 = 0%float.

(** The rational number that a double stands for; none for the infinities
    and for NaN. *)
Definition valueOf (f : float) : option Q :=
  match Prim2SF f with
  | S754_zero _ => Some 0%Q
  | S754_finite s m e =>
      Some ((if s then -1 else 1) * inject_Z (Zpos m) * 2 ^ e)%Q
  | S754_infinity _ | S754_nan => None
  end.

End Binary64.

(** ** js/view/ElectronShellView.js: the objects *)

(** References to the objects that the view is handed. *)
Definition ParticleRef : Type := nat.
Definition BucketFrontRef : Type := nat.

(** [Input.KEY_...], the key codes that the listeners tell apart. *)
Inductive KeyCode : Type :=
| KEY_DOWN_ARROW | KEY_RIGHT_ARROW | KEY_UP_ARROW | KEY_LEFT_ARROW
| KEY_ENTER | KEY_SPACE | KEY_TAB | KEY_ESCAPE
| KEY_OTHER.

Definition keyCode_eqb (a b : KeyCode) : bool :=
  match a, b with
  | KEY_DOWN_ARROW, KEY_DOWN_ARROW | KEY_RIGHT_ARROW, KEY_RIGHT_ARROW
  | KEY_UP_ARROW, KEY_UP_ARROW | KEY_LEFT_ARROW, KEY_LEFT_ARROW
  | KEY_ENTER, KEY_ENTER | KEY_SPACE, KEY_SPACE
  | KEY_TAB, KEY_TAB | KEY_ESCAPE, KEY_ESCAPE
  | KEY_OTHER, KEY_OTHER => true
  | _, _ => false
  end.

(** A number used as an array index: an integer, or NaN (what [% 0] gives). *)
Inductive JSInt : Type :=
| Int (z : Z)
| NaN.

Definition js_add (a : JSInt) (k : Z) : JSInt :=
  match a with Int z => Int (z + k) | NaN => NaN end.

(** [a % n], the remainder that takes the sign of [a]. *)
Definition js_rem (a : JSInt) (n : Z) : JSInt :=
  match a with
  | Int z => if (n =? 0)%Z then NaN else Int (Z.rem z n)
  | NaN => NaN
  end.

(** [a < 0] *)
Definition js_ltb0 (a : JSInt) : bool :=
  match a with Int z => (z <? 0)%Z | NaN => false end.

(** [array[ i ]] for an integer [i]: [None] is undefined. *)
Definition index {A : Type} (l : list A) (i : Z) : option A :=
  if (i <? 0)%Z then None else nth_error l (Z.to_nat i).

(** [array[ i ]] for a number [i]. *)
Definition js_index {A : Type} (l : list A) (i : JSInt) : option (nat * A) :=
  match i with
  | Int z =>
      match index l z with
      | Some a => Some (Z.to_nat z, a)
      | None => None
      end
  | NaN => None
  end.

(** The two rings, and the three nodes of [shellNucluesOptions]. *)
Inductive RingId : Type := InnerRing | OuterRing.

Inductive OptionNode : Type :=
| CenterOption
| RingOption (r : RingId).

Definition shellNucluesOptions : list OptionNode :=
  [ CenterOption; RingOption InnerRing; RingOption OuterRing ].

(** What can hold the input focus. *)
Inductive NodeRef : Type :=
| OptionNodeRef (o : OptionNode)
| PlacementNodeRef (r : RingId) (i : nat)
| BucketFrontNodeRef (b : BucketFrontRef).

(** The callbacks given to [setTimeout], each with the 100 ms delay. *)
Inductive Timer : Type :=
| RefocusFromShellView
| RefocusFromRing (r : RingId).

(** The calls made on the bucket of a bucket front. *)
Inductive BucketCall : Type :=
| AddParticleFirstOpen (bucketFront : BucketFrontRef) (particle : ParticleRef)
    (animate : bool).

(** One of the rectangles of [electronPlacementNodes]. *)
Module PlacementNode.

Record t : Type := mk {
  focusable : bool;
  accessibleHidden : bool;
  visible : bool
}.

Definition set_visible (b : bool) (n : t) : t :=
  mk (focusable n) (accessibleHidden n) b.

(** As the constructor of the ring leaves it. *)
Definition initial : t := mk false false false.

End PlacementNode.

(** [nodes[ i ].visible = b] *)
Fixpoint setVisibleAt (i : nat) (b : bool) (nodes : list PlacementNode.t)
  : list PlacementNode.t :=
  match nodes, i with
  | [], _ => []
  | n :: rest, O => PlacementNode.set_visible b n :: rest
  | n :: rest, S j => n :: setVisibleAt j b rest
  end.

(** The fields of an ElectronRingNode. *)
Module Ring.

Record t : Type := mk {
  electronShellPositions : list Vector2;
  electronPlacementNodes : list PlacementNode.t;
  choosingElectronPlacement : bool;
  choosingElectronPlaement : option bool;   (* as the listener spells it *)
  currentOptionIndex : JSInt;
  previouslyFocusedElectron : option nat;   (* a node of the list above *)
  activeParticle : option ParticleRef;
  activeBucketFront : option BucketFrontRef
}.

Definition set_electronPlacementNodes v (r : t) : t :=
  mk (electronShellPositions r) v (choosingElectronPlacement r)
     (choosingElectronPlaement r) (currentOptionIndex r)
     (previouslyFocusedElectron r) (activeParticle r) (activeBucketFront r).

Definition set_choosingElectronPlacement v (r : t) : t :=
  mk (electronShellPositions r) (electronPlacementNodes r) v
     (choosingElectronPlaement r) (currentOptionIndex r)
     (previouslyFocusedElectron r) (activeParticle r) (activeBucketFront r).

Definition set_choosingElectronPlaement v (r : t) : t :=
  mk (electronShellPositions r) (electronPlacementNodes r)
     (choosingElectronPlacement r) v (currentOptionIndex r)
     (previouslyFocusedElectron r) (activeParticle r) (activeBucketFront r).

Definition set_currentOptionIndex v (r : t) : t :=
  mk (electronShellPositions r) (electronPlacementNodes r)
     (choosingElectronPlacement r) (choosingElectronPlaement r) v
     (previouslyFocusedElectron r) (activeParticle r) (activeBucketFront r).

Definition set_previouslyFocusedElectron v (r : t) : t :=
  mk (electronShellPositions r) (electronPlacementNodes r)
     (choosingElectronPlacement r) (choosingElectronPlaement r)
     (currentOptionIndex r) v (activeParticle r) (activeBucketFront r).

Definition set_activeParticle v (r : t) : t :=
  mk (electronShellPositions r) (electronPlacementNodes r)
     (choosingElectronPlacement r) (choosingElectronPlaement r)
     (currentOptionIndex r) (previouslyFocusedElectron r) v
     (activeBucketFront r).

Definition set_activeBucketFront v (r : t) : t :=
  mk (electronShellPositions r) (electronPlacementNodes r)
     (choosingElectronPlacement r) (choosingElectronPlaement r)
     (currentOptionIndex r) (previouslyFocusedElectron r)
     (activeParticle r) v.

(** [new ElectronRingNode( radius, electronShellPositions, ... )] *)
Definition new (positions : list Vector2) : t :=
  let nodes := map (fun _ => PlacementNode.initial) positions in
  mk positions nodes false None (Int 0)
     (match nodes with [] => None | _ :: _ => Some O end)
     None None.

End Ring.

(** The fields of the ElectronShellView itself. *)
Module View.

Record t : Type := mk {
  selectingShellNucleusOptions : bool;
  previouslyFocusedNode : OptionNode;
  currentOptionIndex : Z;
  currentlyDraggedParticle : option ParticleRef;
  currentlySelectedBucketFront : option BucketFrontRef;
  focusable : bool;
  accessibleHidden : bool;
  shellNucleusHoverLocations : OptionNode -> Vector2
}.

Definition set_selectingShellNucleusOptions v (s : t) : t :=
  mk v (previouslyFocusedNode s) (currentOptionIndex s)
     (currentlyDraggedParticle s) (currentlySelectedBucketFront s)
     (focusable s) (accessibleHidden s) (shellNucleusHoverLocations s).

Definition set_previouslyFocusedNode v (s : t) : t :=
  mk (selectingShellNucleusOptions s) v (currentOptionIndex s)
     (currentlyDraggedParticle s) (currentlySelectedBucketFront s)
     (focusable s) (accessibleHidden s) (shellNucleusHoverLocations s).

Definition set_currentOptionIndex v (s : t) : t :=
  mk (selectingShellNucleusOptions s) (previouslyFocusedNode s) v
     (currentlyDraggedParticle s) (currentlySelectedBucketFront s)
     (focusable s) (accessibleHidden s) (shellNucleusHoverLocations s).

Definition set_currentlyDraggedParticle v (s : t) : t :=
  mk (selectingShellNucleusOptions s) (previouslyFocusedNode s)
     (currentOptionIndex s) v (currentlySelectedBucketFront s)
     (focusable s) (accessibleHidden s) (shellNucleusHoverLocations s).

Definition set_currentlySelectedBucketFront v (s : t) : t :=
  mk (selectingShellNucleusOptions s) (previouslyFocusedNode s)
     (currentOptionIndex s) (currentlyDraggedParticle s) v
     (focusable s) (accessibleHidden s) (shellNucleusHoverLocations s).

Definition set_focusable v (s : t) : t :=
  mk (selectingShellNucleusOptions s) (previouslyFocusedNode s)
     (currentOptionIndex s) (currentlyDraggedParticle s)
     (currentlySelectedBucketFront s) v (accessibleHidden s)
     (shellNucleusHoverLocations s).

Definition set_accessibleHidden v (s : t) : t :=
  mk (selectingShellNucleusOptions s) (previouslyFocusedNode s)
     (currentOptionIndex s) (currentlyDraggedParticle s)
     (currentlySelectedBucketFront s) (focusable s) v
     (shellNucleusHoverLocations s).

End View.

(** What the view works on besides its own fields: the focus of the page,
    the particles it is handed (by reference), the atom's particle count, the
    pending timeouts (oldest first), the calls made on buckets so far, and
    what [bucket.addParticleFirstOpen] does to the particles. *)
Module Page.

Record t : Type := mk {
  focus : option NodeRef;
  particles : ParticleRef -> Particle;
  particleCount : Z;
  timers : list Timer;
  calls : list BucketCall;
  addParticleFirstOpen :
    BucketFrontRef -> ParticleRef ->
    (ParticleRef -> Particle) -> (ParticleRef -> Particle)
}.

Definition set_focus v (s : t) : t :=
  mk v (particles s) (particleCount s) (timers s) (calls s)
     (addParticleFirstOpen s).

Definition set_particles v (s : t) : t :=
  mk (focus s) v (particleCount s) (timers s) (calls s)
     (addParticleFirstOpen s).

Definition set_timers v (s : t) : t :=
  mk (focus s) (particles s) (particleCount s) v (calls s)
     (addParticleFirstOpen s).

Definition set_calls v (s : t) : t :=
  mk (focus s) (particles s) (particleCount s) (timers s) v
     (addParticleFirstOpen s).

End Page.

Record World : Type := mkWorld {
  view : View.t;
  innerRing : Ring.t;
  outerRing : Ring.t;
  page : Page.t
}.

Definition ring (r : RingId) (w : World) : Ring.t :=
  match r with InnerRing => innerRing w | OuterRing => outerRing w end.

Definition set_view (v : View.t) (w : World) : World :=
  mkWorld v (innerRing w) (outerRing w) (page w).

Definition set_ring (r : RingId) (v : Ring.t) (w : World) : World :=
  match r with
  | InnerRing => mkWorld (view w) v (outerRing w) (page w)
  | OuterRing => mkWorld (view w) (innerRing w) v (page w)
  end.

Definition set_page (v : Page.t) (w : World) : World :=
  mkWorld (view w) (innerRing w) (outerRing w) v.

(** [particles[ r ] = p] in the store of particles. *)
Definition storeParticle (r : ParticleRef) (p : Particle)
    (h : ParticleRef -> Particle) : ParticleRef -> Particle :=
  fun r' => if Nat.eqb r' r then p else h r'.

(** ** Listener code: a state that is updated in place, and exceptions *)

(** How a call ends: it returns, or it throws; either way the updates made
    up to that point stay. *)
Inductive Outcome (A : Type) : Type :=
| Returned (a : A) (w : World)
| Threw (e : JSError) (w : World).
Arguments Returned {A} a w.
Arguments Threw {A} e w.

Definition M (A : Type) : Type := World -> Outcome A.

Definition ret {A : Type} (a : A) : M A := fun w => Returned a w.

Definition bind {A B : Type} (m : M A) (k : A -> M B) : M B :=
  fun w =>
    match m w with
    | Returned a w' => k a w'
    | Threw e w' => Threw e w'
    end.

Definition throw {A : Type} (e : JSError) : M A := fun w => Threw e w.

Definition get : M World := fun w => Returned w w.

Definition modify (f : World -> World) : M unit := fun w => Returned tt (f w).

Declare Scope js_scope.
Delimit Scope js_scope with js.
Notation "x <- m ;; k" := (bind m (fun x => k))
  (at level 61, m at next level, right associativity) : js_scope.
Notation "m ;; k" := (bind m (fun _ => k))
  (at level 61, right associativity) : js_scope.
Open Scope js_scope.

(** The world a call leaves behind. *)
Definition worldOf {A : Type} (o : Outcome A) : World :=
  match o with Returned _ w => w | Threw _ w => w end.

(** Reading a property of [v], which throws when [v] is null or undefined. *)
Definition deref {A : Type} (v : option A) : M A :=
  match v with
  | Some a => ret a
  | None => throw (TypeError "Cannot read property of undefined or null")
  end.

Definition modifyView (f : View.t -> View.t) : M unit :=
  modify (fun w => set_view (f (view w)) w).

Definition modifyRing (r : RingId) (f : Ring.t -> Ring.t) : M unit :=
  modify (fun w => set_ring r (f (ring r w)) w).

Definition modifyPage (f : Page.t -> Page.t) : M unit :=
  modify (fun w => set_page (f (page w)) w).

(** [node.focus()] *)
Definition focusNode (n : NodeRef) : M unit :=
  modifyPage (Page.set_focus (Some n)).

(** An assignment to a property of the particle behind [r]. *)
Definition updateParticle (r : ParticleRef) (f : Particle -> Particle)
  : M unit :=
  modifyPage (fun pg =>
    Page.set_particles
      (storeParticle r (f (Page.particles pg r)) (Page.particles pg)) pg).

(** [setTimeout( callback, 100 )] *)
Definition setTimeout (t : Timer) : M unit :=
  modifyPage (fun pg => Page.set_timers (Page.timers pg ++ [ t ]) pg).

(** [bucketFront.bucket.addParticleFirstOpen( particle, true )] *)
Definition addParticleFirstOpen (bucketFront : BucketFrontRef)
    (particle : ParticleRef) : M unit :=
  modifyPage (fun pg =>
    Page.set_calls
      (Page.calls pg ++ [ AddParticleFirstOpen bucketFront particle true ])
      (Page.set_particles
         (Page.addParticleFirstOpen pg bucketFront particle
            (Page.particles pg)) pg)).

Definition isDownRight (keyCode : KeyCode) : bool :=
  keyCode_eqb keyCode KEY_DOWN_ARROW || keyCode_eqb keyCode KEY_RIGHT_ARROW.

Definition isUpLeft (keyCode : KeyCode) : bool :=
  keyCode_eqb keyCode KEY_UP_ARROW || keyCode_eqb keyCode KEY_LEFT_ARROW.

(** The condition that both listeners write out: 'place' or 'end'. *)
Definition isPlaceOrEnd (keyCode : KeyCode) : bool :=
  keyCode_eqb keyCode KEY_ENTER || keyCode_eqb keyCode KEY_SPACE ||
  keyCode_eqb keyCode KEY_TAB || keyCode_eqb keyCode KEY_ESCAPE.

Definition isTabOrEscape (keyCode : KeyCode) : bool :=
  keyCode_eqb keyCode KEY_TAB || keyCode_eqb keyCode KEY_ESCAPE.

(** ** ElectronRingNode *)

(** [chooseElectron( particle, bucketFront )] of the ring [r] *)
Definition chooseElectron (r : RingId) (particle : ParticleRef)
    (bucketFront : BucketFrontRef) : M unit :=
  modifyRing r (Ring.set_activeParticle (Some particle)) ;;
  modifyRing r (Ring.set_activeBucketFront (Some bucketFront)) ;;
  modifyRing r (Ring.set_choosingElectronPlacement true) ;;
  modifyRing r (fun this =>
    Ring.set_electronPlacementNodes
      (map (fun _ => PlacementNode.mk true false true)
           (Ring.electronPlacementNodes this)) this) ;;
  w <- get ;;
  let this := ring r w in
  position <- deref (js_index (Ring.electronShellPositions this)
                              (Ring.currentOptionIndex this)) ;;
  updateParticle particle
    (set_destinationProperty (Vector2.times (snd position) 1.05)) ;;
  previous <- deref (Ring.previouslyFocusedElectron this) ;;
  focusNode (PlacementNodeRef r previous) ;;
  modifyRing r (fun this =>
    Ring.set_electronPlacementNodes
      (setVisibleAt previous false (Ring.electronPlacementNodes this)) this).

(** The arrow keys of the ring's listener: the new [currentOptionIndex]. *)
Definition ringArrowIndex (keyCode : KeyCode) (this : Ring.t) : JSInt :=
  let length := Z.of_nat (List.length (Ring.electronPlacementNodes this)) in
  if isUpLeft keyCode then
    js_rem (js_add (Ring.currentOptionIndex this) 1) length
  else if isDownRight keyCode then
    let decremented := js_add (Ring.currentOptionIndex this) (-1) in
    if js_ltb0 decremented then Int (length - 1) else decremented
  else Ring.currentOptionIndex this.

(** The keydown listener that the ring [r] adds to itself. *)
Definition ringKeydown (r : RingId) (keyCode : KeyCode) : M unit :=
  w <- get ;;
  let self := ring r w in
  match Ring.choosingElectronPlacement self,
        Ring.activeParticle self, Ring.activeBucketFront self with
  | true, Some activeParticle, Some activeBucketFront =>
      if isDownRight keyCode || isUpLeft keyCode then
        modifyRing r (fun self =>
          Ring.set_currentOptionIndex (ringArrowIndex keyCode self) self) ;;
        previous <- deref (Ring.previouslyFocusedElectron self) ;;
        modifyRing r (fun self =>
          Ring.set_electronPlacementNodes
            (setVisibleAt previous true (Ring.electronPlacementNodes self))
            self) ;;
        w <- get ;;
        let self := ring r w in
        currentNode <- deref (js_index (Ring.electronPlacementNodes self)
                                       (Ring.currentOptionIndex self)) ;;
        focusNode (PlacementNodeRef r (fst currentNode)) ;;
        modifyRing r (fun self =>
          Ring.set_electronPlacementNodes
            (setVisibleAt (fst currentNode) false
               (Ring.electronPlacementNodes self)) self) ;;
        position <- deref (js_index (Ring.electronShellPositions self)
                                    (Ring.currentOptionIndex self)) ;;
        updateParticle activeParticle
          (set_destinationProperty (Vector2.times (snd position) 1.05)) ;;
        modifyRing r
          (Ring.set_previouslyFocusedElectron (Some (fst currentNode)))
      else if isPlaceOrEnd keyCode then
        modifyRing r (Ring.set_choosingElectronPlaement (Some false)) ;;
        (if isTabOrEscape keyCode
         then addParticleFirstOpen activeBucketFront activeParticle
         else ret tt) ;;
        updateParticle activeParticle (set_userControlledProperty false) ;;
        modifyRing r (fun self =>
          Ring.set_electronPlacementNodes
            (map (fun _ => PlacementNode.mk false true false)
                 (Ring.electronPlacementNodes self)) self) ;;
        updateParticle activeParticle
          (set_isAccessibleControlled (Some false)) ;;
        modifyRing r (Ring.set_activeParticle None) ;;
        (if negb (keyCode_eqb keyCode KEY_TAB)
         then setTimeout (RefocusFromRing r)
         else modifyRing r (Ring.set_activeBucketFront None))
      else ret tt
  | _, _, _ => ret tt
  end.

(** ** ElectronShellView *)

(** The arrow keys of the view's listener: the new [currentOptionIndex]. *)
Definition viewArrowIndex (keyCode : KeyCode) (self : View.t) : Z :=
  let length := Z.of_nat (List.length shellNucluesOptions) in
  if isDownRight keyCode then
    Z.rem (View.currentOptionIndex self + 1) length
  else if isUpLeft keyCode then
    let decremented := (View.currentOptionIndex self - 1)%Z in
    if (decremented <? 0)%Z then (length - 1)%Z else decremented
  else View.currentOptionIndex self.

(** The keydown listener that the view adds to itself. *)
Definition viewKeydown (keyCode : KeyCode) : M unit :=
  w <- get ;;
  if View.selectingShellNucleusOptions (view w) then
    if isDownRight keyCode || isUpLeft keyCode then
      modifyView (fun self =>
        View.set_currentOptionIndex (viewArrowIndex keyCode self) self) ;;
      w <- get ;;
      let self := view w in
      currentNode <- deref (index shellNucluesOptions
                                  (View.currentOptionIndex self)) ;;
      focusNode (OptionNodeRef currentNode) ;;
      particle <- deref (View.currentlyDraggedParticle self) ;;
      updateParticle particle
        (set_destinationProperty
           (View.shellNucleusHoverLocations self currentNode)) ;;
      modifyView (View.set_previouslyFocusedNode currentNode)
    else if isPlaceOrEnd keyCode then
      let self := view w in
      match View.currentlyDraggedParticle self,
            View.currentlySelectedBucketFront self with
      | Some particle, Some bucketFront =>
          let nucleusOptionIndex := 0%Z in
          if (View.currentOptionIndex self =? nucleusOptionIndex)%Z
             || isTabOrEscape keyCode then
            (if isTabOrEscape keyCode
             then addParticleFirstOpen bucketFront particle
             else ret tt) ;;
            updateParticle particle (set_userControlledProperty false) ;;
            updateParticle particle
              (set_isAccessibleControlled (Some false)) ;;
            (if (Page.particleCount (page w) =? 0)%Z
             then modifyView (View.set_focusable false)
             else ret tt) ;;
            modifyView (View.set_currentlyDraggedParticle None) ;;
            (if negb (keyCode_eqb keyCode KEY_TAB)
             then setTimeout RefocusFromShellView
             else modifyView (View.set_currentlySelectedBucketFront None))
          else
            modifyView (View.set_selectingShellNucleusOptions false) ;;
            outerNode <- deref (index shellNucluesOptions
                                      (View.currentOptionIndex self)) ;;
            match outerNode with
            | RingOption r => chooseElectron r particle bucketFront
            | CenterOption =>
                throw (TypeError "outerNode.chooseElectron is not a function")
            end
      | _, _ => ret tt
      end
    else ret tt
  else ret tt.

(** [accessibleSelect( particle, bucketFront )] *)
Definition accessibleSelect (particle : ParticleRef)
    (bucketFront : BucketFrontRef) : M unit :=
  modifyView (View.set_selectingShellNucleusOptions true) ;;
  modifyView (View.set_accessibleHidden false) ;;
  w <- get ;;
  focusNode (OptionNodeRef (View.previouslyFocusedNode (view w))) ;;
  modifyView (View.set_currentlyDraggedParticle (Some particle)) ;;
  modifyView (View.set_currentlySelectedBucketFront (Some bucketFront)).

(** The body of a [setTimeout] callback. *)
Definition runTimer (t : Timer) : M unit :=
  w <- get ;;
  match t with
  | RefocusFromShellView =>
      bucketFront <- deref (View.currentlySelectedBucketFront (view w)) ;;
      focusNode (BucketFrontNodeRef bucketFront) ;;
      modifyView (View.set_currentlySelectedBucketFront None)
  | RefocusFromRing r =>
      bucketFront <- deref (Ring.activeBucketFront (ring r w)) ;;
      focusNode (BucketFrontNodeRef bucketFront) ;;
      modifyRing r (Ring.set_activeBucketFront None)
  end.

(** The oldest pending timeout fires. *)
Definition fireTimer : M unit :=
  w <- get ;;
  match Page.timers (page w) with
  | [] => ret tt
  | t :: rest => modifyPage (Page.set_timers rest) ;; runTimer t
  end.

(** ** Construction *)

(** What the constructor reads from the ParticleAtom. *)
Record Atom : Type := mkAtom {
  nucleusRadius : R;
  innerElectronShellRadius : R;
  outerElectronShellRadius : R;
  electronShellPositions : list Vector2;
  particleCountProperty : Z
}.

(** [new ElectronShellView( atom, ... )]: the view and its two rings.  The
    hover location of the centre option is the one that the link to
    [nucleusRadiusProperty] sets when it is added. *)
Definition newElectronShellView (atom : Atom) : View.t * Ring.t * Ring.t :=
  let hover (o : OptionNode) : Vector2 :=
    match o with
    | CenterOption =>
        let radius := nucleusRadius atom in
        let radiusOffset := if Req_dec_T radius 0 then 0 else 7 in
        Vector2.mk (radius + radiusOffset) radiusOffset
    | RingOption InnerRing =>
        Vector2.mk (innerElectronShellRadius atom + 10) 10
    | RingOption OuterRing =>
        Vector2.mk (outerElectronShellRadius atom + 10) 10
    end in
  (View.mk false CenterOption 0%Z None None false false hover,
   Ring.new (firstn 2 (electronShellPositions atom)),
   Ring.new (skipn 2 (electronShellPositions atom))).

(** The world right after construction: nothing focused, no timeout pending,
    no call made on a bucket yet. *)
Definition newWorld (atom : Atom) (particles : ParticleRef -> Particle)
    (bucketEffect : BucketFrontRef -> ParticleRef ->
                    (ParticleRef -> Particle) -> (ParticleRef -> Particle))
  : World :=
  let '(v, inner, outer) := newElectronShellView atom in
  mkWorld v inner outer
    (Page.mk None particles (particleCountProperty atom) [] [] bucketEffect).

(** ** Sessions, as the fields of the view and of the rings hold them *)

(** The level that a session is at: the three options of the view, or the
    slots of one ring. *)
Inductive Level : Type :=
| Top
| Slot (r : RingId).

Definition otherRing (r : RingId) : RingId :=
  match r with InnerRing => OuterRing | OuterRing => InnerRing end.

(** The slots of a ring at rest: none visible, none focusable. *)
Definition slotsAtRest (this : Ring.t) : Prop :=
  Forall (fun n => PlacementNode.focusable n = false /\
                   PlacementNode.visible n = false)
         (Ring.electronPlacementNodes this).

(** The listener that gets the key events of a level. *)
Definition keydown (l : Level) : KeyCode -> M unit :=
  match l with
  | Top => viewKeydown
  | Slot r => ringKeydown r
  end.

Definition sessionParticle (l : Level) (w : World) : option ParticleRef :=
  match l with
  | Top => View.currentlyDraggedParticle (view w)
  | Slot r => Ring.activeParticle (ring r w)
  end.

Definition sessionOrigin (l : Level) (w : World) : option BucketFrontRef :=
  match l with
  | Top => View.currentlySelectedBucketFront (view w)
  | Slot r => Ring.activeBucketFront (ring r w)
  end.

Definition levelIndex (l : Level) (w : World) : JSInt :=
  match l with
  | Top => Int (View.currentOptionIndex (view w))
  | Slot r => Ring.currentOptionIndex (ring r w)
  end.

Definition optionCount (l : Level) (w : World) : Z :=
  match l with
  | Top => Z.of_nat (List.length shellNucluesOptions)
  | Slot r => Z.of_nat (List.length (Ring.electronPlacementNodes (ring r w)))
  end.

Definition refocusTimer (l : Level) : Timer :=
  match l with
  | Top => RefocusFromShellView
  | Slot r => RefocusFromRing r
  end.

(** A ring that takes no part in the session in progress: it holds no
    particle and none of its slots is shown. *)
Definition ringAtRest (this : Ring.t) : Prop :=
  slotsAtRest this /\ Ring.activeParticle this = None.

(** A session of [particle], taken from [bucketFront], is the one session
    in progress, at level [l].  At the top level the view is selecting and
    both rings are at rest; at the slot level of a ring the view has stopped
    selecting, the ring is choosing and the other ring is at rest. *)
Definition session (l : Level) (w : World) (particle : ParticleRef)
    (bucketFront : BucketFrontRef) : Prop :=
  sessionParticle l w = Some particle /\
  sessionOrigin l w = Some bucketFront /\
  match l with
  | Top =>
      View.selectingShellNucleusOptions (view w) = true /\
      forall r, ringAtRest (ring r w)
  | Slot r =>
      Ring.choosingElectronPlacement (ring r w) = true /\
      View.selectingShellNucleusOptions (view w) = false /\
      ringAtRest (ring (otherRing r) w)
  end.

(** The keys that end a session at level [l]: Tab and Escape, Enter and
    Space on a slot, and Enter and Space on the nucleus option. *)
Definition endsSession (l : Level) (keyCode : KeyCode) (w : World) : bool :=
  match l with
  | Top =>
      isPlaceOrEnd keyCode &&
      ((View.currentOptionIndex (view w) =? 0)%Z || isTabOrEscape keyCode)
  | Slot _ => isPlaceOrEnd keyCode
  end.

(** The index of level [l] is the in-range integer [i], and the ring of a
    slot level is as its constructor and its listener keep it: a node for
    each position, and a previously focused node among them. *)
Definition indexInRange (l : Level) (w : World) (i : Z) : Prop :=
  levelIndex l w = Int i /\
  (0 <= i < optionCount l w)%Z /\
  match l with
  | Top => True
  | Slot r =>
      List.length (Ring.electronShellPositions (ring r w)) =
        List.length (Ring.electronPlacementNodes (ring r w)) /\
      exists j, Ring.previouslyFocusedElectron (ring r w) = Some j
  end.

(** No particle is being placed: the view is not selecting or holds no
    particle, and neither ring holds one. *)
Definition idle (w : World) : Prop :=
  (View.selectingShellNucleusOptions (view w) = false \/
   View.currentlyDraggedParticle (view w) = None) /\
  forall r, Ring.activeParticle (ring r w) = None.

(** What an arrow key adds to the index of a level, before the wrap: the
    view goes up on down and right, a ring goes up on up and left. *)
Definition arrowDelta (l : Level) (keyCode : KeyCode) : Z :=
  match l with
  | Top =>
      if isDownRight keyCode then 1%Z
      else if isUpLeft keyCode then (-1)%Z else 0%Z
  | Slot _ =>
      if isUpLeft keyCode then 1%Z
      else if isDownRight keyCode then (-1)%Z else 0%Z
  end.

(** The same key pressed [n] times at level [l]. *)
Fixpoint presses (l : Level) (keyCode : KeyCode) (n : nat) : M unit :=
  match n with
  | O => ret tt
  | S k => keydown l keyCode ;; presses l keyCode k
  end.

(** ** An atom and a world to run the listeners on *)

(** Two positions on the inner shell and four on the outer one. *)
Definition exampleAtom : Atom :=
  mkAtom 0 85 130
    [ Vector2.mk 85 0; Vector2.mk (-85) 0;
      Vector2.mk 130 0; Vector2.mk 0 130;
      Vector2.mk (-130) 0; Vector2.mk 0 (-130) ]
    0%Z.

(** A bucket that sends the particle it takes back to where the bucket is. *)
Definition exampleBucketEffect (bucketFront : BucketFrontRef)
    (particle : ParticleRef) (h : ParticleRef -> Particle)
  : ParticleRef -> Particle :=
  storeParticle particle
    (set_destinationProperty (Vector2.mk (INR bucketFront * 100) (-200))
       (h particle)) h.

(** The example world: every reference is to an electron that its bucket
    has just handed out to the user. *)
Definition exampleWorld : World :=
  newWorld exampleAtom
    (fun _ => set_userControlledProperty true (newParticle "electron" 3))
    exampleBucketEffect.

(** The example world after [accessibleSelect] of particle 1 from bucket
    front 1: a session at the top level. *)
Definition topSessionWorld : World :=
  worldOf (accessibleSelect 1%nat 1%nat exampleWorld).

(** The same session taken to the slots of the outer ring: the down arrow
    twice, then Enter. *)
Definition slotSessionWorld : World :=
  worldOf
    ((viewKeydown KEY_DOWN_ARROW ;; viewKeydown KEY_DOWN_ARROW ;;
      viewKeydown KEY_ENTER) topSessionWorld).

(** A proton at the origin on its way to [(3, 4)]. *)
Definition travellingProton : Particle :=
  mkParticle "proton" (Vector2.mk 0 0) (Vector2.mk 3 4) 10
    DEFAULT_PARTICLE_VELOCITY false 0%Z None.


(** It again, with a velocity of 128: a sixty-fourth of a second takes it
    2 along the way. *)
Definition diagonalProton : Binary64.Particle :=
  Binary64.mkParticle "proton" (Binary64.Vector2.mk 0 0)
    (Binary64.Vector2.mk 3 4) 10 128 false 0%Z None.

(** A proton at rest at [(3, 4)]. *)
Definition restingProton : Binary64.Particle :=
  Binary64.mkParticle "proton" (Binary64.Vector2.mk 3 4)
    (Binary64.Vector2.mk 3 4) 10 Binary64.DEFAULT_PARTICLE_VELOCITY
    false 0%Z None.

(** A proton whose destination is [2 ^ -600] to its right: the square of
    that is below the least positive double. *)
Definition closeProton : Binary64.Particle :=
  Binary64.mkParticle "proton" (Binary64.Vector2.mk 0 0)
    (Binary64.Vector2.mk 0x1p-600 0) 10 Binary64.DEFAULT_PARTICLE_VELOCITY
    false 0%Z None.



(** An engine to run examples on: the three functions by the first terms
    of their series. *)
Definition seriesMath : Binary64.Math :=
  let pi : float := 0x1.921fb54442d18p+1%float in
  let atan (t : float) : float :=
    (t - t * t * t / 3 + t * t * t * t * t / 5)%float in
  Binary64.mkMath
    (fun y x =>
       if (0 <? x)%float then atan (y / x)%float
       else if (x <? 0)%float then
         if (0 <=? y)%float then (atan (y / x) + pi)%float
         else (atan (y / x) - pi)%float
       else if (0 <? y)%float then (pi / 2)%float
       else if (y <? 0)%float then (- (pi / 2))%float
       else 0%float)
    (fun a => (1 - a * a / 2 + a * a * a * a / 24)%float)
    (fun a => (a - a * a * a / 6 + a * a * a * a * a / 120)%float).

(** ** The rest of the view, and the events that reach it *)

Definition set_shellNucleusHoverLocations (v : OptionNode -> Vector2)
    (s : View.t) : View.t :=
  View.mk (View.selectingShellNucleusOptions s) (View.previouslyFocusedNode s)
    (View.currentOptionIndex s) (View.currentlyDraggedParticle s)
    (View.currentlySelectedBucketFront s) (View.focusable s)
    (View.accessibleHidden s) v.

(** [getCurrentParticleHoverLocation()] *)
Definition getCurrentParticleHoverLocation : M Vector2 :=
  w <- get ;;
  option <- deref (index shellNucluesOptions
                         (View.currentOptionIndex (view w))) ;;
  ret (View.shellNucleusHoverLocations (view w) option).

(** The listener that the constructor links to [atom.nucleusRadiusProperty]:
    the hover location of the centre option follows the radius. *)
Definition nucleusRadiusChanged (radius : R) : M unit :=
  let radiusOffset := if Req_dec_T radius 0 then 0 else 7 in
  modifyView (fun self =>
    set_shellNucleusHoverLocations
      (fun o =>
         match o with
         | CenterOption => Vector2.mk (radius + radiusOffset) radiusOffset
         | RingOption _ => View.shellNucleusHoverLocations self o
         end) self).

(** What can happen to the view once it is built. *)
Inductive Event : Type :=
| AccessibleSelect (particle : ParticleRef) (bucketFront : BucketFrontRef)
| ViewKeydown (keyCode : KeyCode)
| RingKeydown (r : RingId) (keyCode : KeyCode)
| TimerFires
| NucleusRadiusChanges (radius : R).

Definition runEvent (e : Event) : M unit :=
  match e with
  | AccessibleSelect particle bucketFront =>
      accessibleSelect particle bucketFront
  | ViewKeydown keyCode => viewKeydown keyCode
  | RingKeydown r keyCode => ringKeydown r keyCode
  | TimerFires => fireTimer
  | NucleusRadiusChanges radius => nucleusRadiusChanged radius
  end.

(** The events of a list, one after the other; an error thrown by one of
    them is not caught by anything and the next event finds the world as
    the throw left it. *)
Fixpoint runEvents (events : list Event) (w : World) : World :=
  match events with
  | [] => w
  | e :: rest => runEvents rest (worldOf (runEvent e w))
  end.

(** A ring keeps a node for each position and, when it has any, an index
    in range with the previously focused node at that index. *)
Definition ringWellFormed (this : Ring.t) : Prop :=
  List.length (Ring.electronShellPositions this) =
    List.length (Ring.electronPlacementNodes this) /\
  (Ring.electronPlacementNodes this <> [] ->
   exists i : Z,
     Ring.currentOptionIndex this = Int i /\
     (0 <= i < Z.of_nat (List.length (Ring.electronPlacementNodes this)))%Z /\
     Ring.previouslyFocusedElectron this = Some (Z.to_nat i)).

Definition wellFormed (w : World) : Prop :=
  (0 <= View.currentOptionIndex (view w) <
     Z.of_nat (List.length shellNucluesOptions))%Z /\
  forall r : RingId, ringWellFormed (ring r w).

(** Of the nodes, the one at [j] is hidden and the others are visible. *)
Definition onlyHidden (j : nat) (nodes : list PlacementNode.t) : Prop :=
  forall (k : nat) (n : PlacementNode.t),
    nth_error nodes k = Some n ->
    PlacementNode.visible n = negb (Nat.eqb k j).

(** ** The revision of ElectronShellView kept after Particle.js

    The second half of [js/model/Particle.js] is an earlier version of the
    view: one listener, an index in a variable of the constructor, a
    property for the selected option and two emitters whose listeners
    [handleAccessibleDrag] adds. *)

Module EarlierView.

(** The three circles that can be the focus highlight of the view. *)
Inductive Highlight : Type :=
| NucleusFocusHighlight
| ElectronInnerFocusHighlight
| ElectronOuterFocusHighlight.

(** The view, the listeners of its emitters (each one the particle that
    its closure holds, in the order of [addListener]) and the particles.
    The accessible id of an option is the option itself; [None] is the
    property's first value, ['none']. *)
Record t : Type := mk {
  currentIndex : Z;
  selectValueProperty : option OptionNode;
  focusHighlight : option Highlight;
  ariaActivedescendant : option OptionNode;
  optionHighlightedListeners : list ParticleRef;
  optionSelectedListeners : list ParticleRef;
  choosingLocation : OptionNode -> Vector2;
  focused : bool;
  particles : ParticleRef -> Particle
}.

Definition optionNodes : list OptionNode :=
  [ CenterOption; RingOption InnerRing; RingOption OuterRing ].

(** The constructor, with the two radii it reads from the atom. *)
Definition new (innerElectronShellRadius outerElectronShellRadius : R)
    (particles : ParticleRef -> Particle) : t :=
  mk 0%Z None None None [] []
     (fun o =>
        match o with
        | CenterOption => Vector2.mk 0 0
        | RingOption InnerRing => Vector2.mk innerElectronShellRadius 0
        | RingOption OuterRing => Vector2.mk outerElectronShellRadius 0
        end)
     false particles.

(** The listener given to [selectValueProperty.lazyLink]: the highlight
    that each case of its switch sets. *)
Definition highlightFor (newValue : OptionNode) : Highlight :=
  match newValue with
  | CenterOption => ElectronOuterFocusHighlight
  | RingOption InnerRing => ElectronInnerFocusHighlight
  | RingOption OuterRing => NucleusFocusHighlight
  end.

Definition optionNode_eqb (a b : OptionNode) : bool :=
  match a, b with
  | CenterOption, CenterOption => true
  | RingOption InnerRing, RingOption InnerRing => true
  | RingOption OuterRing, RingOption OuterRing => true
  | _, _ => false
  end.

(** [selectValueProperty.set( value )]: the listener runs when the value
    is not the one the property has. *)
Definition setSelectValue (value : OptionNode) (s : t) : t :=
  match selectValueProperty s with
  | Some old =>
      if optionNode_eqb old value then s
      else mk (currentIndex s) (Some value) (Some (highlightFor value))
              (ariaActivedescendant s) (optionHighlightedListeners s)
              (optionSelectedListeners s) (choosingLocation s) (focused s)
              (particles s)
  | None =>
      mk (currentIndex s) (Some value) (Some (highlightFor value))
         (ariaActivedescendant s) (optionHighlightedListeners s)
         (optionSelectedListeners s) (choosingLocation s) (focused s)
         (particles s)
  end.

Definition set_particles (h : ParticleRef -> Particle) (s : t) : t :=
  mk (currentIndex s) (selectValueProperty s) (focusHighlight s)
     (ariaActivedescendant s) (optionHighlightedListeners s)
     (optionSelectedListeners s) (choosingLocation s) (focused s) h.

Definition set_currentIndex (i : Z) (s : t) : t :=
  mk i (selectValueProperty s) (focusHighlight s)
     (ariaActivedescendant s) (optionHighlightedListeners s)
     (optionSelectedListeners s) (choosingLocation s) (focused s)
     (particles s).

Definition set_ariaActivedescendant (o : OptionNode) (s : t) : t :=
  mk (currentIndex s) (selectValueProperty s) (focusHighlight s)
     (Some o) (optionHighlightedListeners s)
     (optionSelectedListeners s) (choosingLocation s) (focused s)
     (particles s).

(** A call of every listener of an emitter, in order: [f] is what a
    listener does to the particle it holds. *)
Fixpoint emit (listeners : list ParticleRef) (f : Particle -> Particle)
    (h : ParticleRef -> Particle) : ParticleRef -> Particle :=
  match listeners with
  | [] => h
  | particle :: rest => emit rest f (storeParticle particle (f (h particle)) h)
  end.

(** The keydown listener: the state it leaves, and the error if it
    throws. *)
Definition keydown (keyCode : KeyCode) (s : t) : t * option JSError :=
  let length := Z.of_nat (List.length optionNodes) in
  let s1 :=
    if isDownRight keyCode then
      set_currentIndex (Z.rem (currentIndex s + 1) length) s
    else if isUpLeft keyCode then
      let decremented := (currentIndex s - 1)%Z in
      set_currentIndex
        (if (decremented <? 0)%Z then (length - 1)%Z else decremented) s
    else if keyCode_eqb keyCode KEY_ENTER || keyCode_eqb keyCode KEY_SPACE
    then
      set_particles
        (emit (optionSelectedListeners s) (set_userControlledProperty false)
              (particles s)) s
    else s in
  match index optionNodes (currentIndex s1) with
  | None =>
      (s1, Some (TypeError "Cannot read property of undefined or null"))
  | Some node =>
      let s2 := set_ariaActivedescendant node s1 in
      let s3 := setSelectValue node s2 in
      (set_particles
         (emit (optionHighlightedListeners s3)
               (set_positionProperty (choosingLocation s3 node))
               (particles s3)) s3,
       None)
  end.

(** [handleAccessibleDrag( particle )] *)
Definition handleAccessibleDrag (particle : ParticleRef) (s : t) : t :=
  mk (currentIndex s) (selectValueProperty s) (focusHighlight s)
     (ariaActivedescendant s)
     (optionHighlightedListeners s ++ [ particle ])
     (optionSelectedListeners s ++ [ particle ])
     (choosingLocation s) true (particles s).

(** [handleAccessibleDrag] for each particle of a list, in order. *)
Fixpoint drags (ps : list ParticleRef) (s : t) : t :=
  match ps with
  | [] => s
  | p :: rest => drags rest (handleAccessibleDrag p s)
  end.

(** The highlight is the one that the listener set for the value of the
    property; neither is set before the first key. *)
Definition highlightInStep (s : t) : Prop :=
  focusHighlight s = option_map highlightFor (selectValueProperty s).

End EarlierView.

(** ** What a call keeps *)

(** [keeps P m]: from a world in [P], the call [m] ends in a world in [P],
    whether it returns or throws. *)
Definition keeps {A : Type} (P : World -> Prop) (m : M A) : Prop :=
  forall w : World, P w -> P (worldOf (m w)).

(** The part of the world that the listener of ring [r] may not change. *)
Definition ringFrame (r : RingId) (w w' : World) : Prop :=
  view w' = view w /\
  ring (otherRing r) w' = ring (otherRing r) w /\
  Ring.electronShellPositions (ring r w') =
    Ring.electronShellPositions (ring r w) /\
  List.length (Ring.electronPlacementNodes (ring r w')) =
    List.length (Ring.electronPlacementNodes (ring r w)).

(** The invariant: the world is well formed and the rings have the
    positions they have in [w0]. *)
Definition sound (w0 w : World) : Prop :=
  wellFormed w /\
  forall r : RingId,
    Ring.electronShellPositions (ring r w) =
    Ring.electronShellPositions (ring r w0).

(** * Properties *)

(** ** Trigonometry behind the polar step *)

Section Polar.

Lemma sqrt_sq_sum_pos (a b : R) :
  0 < sqrt (a * a + b * b) <-> (a <> 0 \/ b <> 0).
Proof.
  split.
  - intros H.
    destruct (Req_dec a 0) as [Ha | Ha]; [ | now left ].
    destruct (Req_dec b 0) as [Hb | Hb]; [ | now right ].
    subst. replace (0 * 0 + 0 * 0) with 0 in H by ring.
    rewrite sqrt_0 in H. lra.
  - intros H. apply sqrt_lt_R0. destruct H; nra.
Qed.

Lemma sqrt_sq_sum_zero (a b : R) :
  sqrt (a * a + b * b) = 0 -> a = 0 /\ b = 0.
Proof.
  intros H. apply sqrt_eq_0 in H; [ | nra ]. split; nra.
Qed.

Lemma hyp_factor_pos (a b : R) :
  0 < a -> sqrt (a * a + b * b) = a * sqrt (1 + (b / a)²).
Proof.
  intros Ha.
  replace (a * a + b * b) with (a² * (1 + (b / a)²)).
  - rewrite sqrt_mult_alt by apply Rle_0_sqr.
    rewrite sqrt_Rsqr by lra. reflexivity.
  - unfold Rsqr. field. lra.
Qed.

Lemma hyp_factor_neg (a b : R) :
  a < 0 -> sqrt (a * a + b * b) = - a * sqrt (1 + (b / a)²).
Proof.
  intros Ha.
  replace (a * a + b * b) with ((- a)² * (1 + (b / a)²)).
  - rewrite sqrt_mult_alt by apply Rle_0_sqr.
    rewrite sqrt_Rsqr by lra. reflexivity.
  - unfold Rsqr. field. lra.
Qed.

Lemma sqrt_one_plus_sq_pos (t : R) : 0 < sqrt (1 + t²).
Proof. apply sqrt_lt_R0. pose proof (Rle_0_sqr t). lra. Qed.

(** The angle [atan2 b a] points from the origin to [(a, b)]. *)
Lemma atan2_bearing (a b : R) :
  0 < sqrt (a * a + b * b) ->
  sqrt (a * a + b * b) * cos (atan2 b a) = a /\
  sqrt (a * a + b * b) * sin (atan2 b a) = b.
Proof.
  intros Hr. unfold atan2.
  pose proof (sqrt_one_plus_sq_pos (b / a)) as Hs.
  destruct (Rlt_dec 0 a) as [Ha | Ha].
  - rewrite hyp_factor_pos by assumption.
    rewrite cos_atan, sin_atan. split; field; lra.
  - destruct (Rlt_dec a 0) as [Ha' | Ha'].
    + rewrite hyp_factor_neg by assumption.
      destruct (Rle_dec 0 b) as [Hb | Hb].
      * rewrite neg_cos, neg_sin, cos_atan, sin_atan. split; field; lra.
      * rewrite cos_minus, sin_minus, cos_PI, sin_PI, cos_atan, sin_atan.
        split; field; lra.
    + assert (a = 0) by lra. subst a.
      replace (0 * 0 + b * b) with (b²) in * by (unfold Rsqr; ring).
      destruct (Rlt_dec 0 b) as [Hb | Hb].
      * rewrite sqrt_Rsqr by lra. rewrite cos_PI2, sin_PI2. lra.
      * destruct (Rlt_dec b 0) as [Hb' | Hb'].
        -- rewrite cos_neg, sin_neg, cos_PI2, sin_PI2.
           rewrite (Rsqr_neg b).
           rewrite sqrt_Rsqr by lra. lra.
        -- assert (b = 0) by lra. subst b.
           rewrite Rsqr_0, sqrt_0 in Hr. lra.
Qed.

End Polar.

(** ** Geometry of one step *)

Section StepGeometry.

Import Vector2.

Lemma distance_sym (v w : Vector2) : distance v w = distance w v.
Proof. unfold distance. f_equal. ring. Qed.

Lemma distance_nonneg (v w : Vector2) : 0 <= distance v w.
Proof. apply sqrt_pos. Qed.

Lemma distance_refl (v : Vector2) : distance v v = 0.
Proof.
  unfold distance.
  replace ((x v - x v) * (x v - x v) + (y v - y v) * (y v - y v)) with 0
    by ring.
  apply sqrt_0.
Qed.

Lemma distance_zero_eq (v w : Vector2) : distance v w = 0 -> v = w.
Proof.
  unfold distance. intros H. apply sqrt_sq_sum_zero in H.
  destruct v, w; simpl in *. f_equal; lra.
Qed.

Lemma polarStep_towards (v w : Vector2) (s : R) :
  0 < distance v w -> polarStep v w s = towards v w s.
Proof.
  intros Hr. unfold polarStep, towards, plus, createPolar. simpl.
  rewrite distance_sym in Hr |- *. unfold distance in *.
  destruct (atan2_bearing (x w - x v) (y w - y v) Hr) as [Hc Hs].
  set (r := sqrt _) in *. set (t := atan2 _ _) in *.
  f_equal.
  - rewrite <- Hc. field. lra.
  - rewrite <- Hs. field. lra.
Qed.

Lemma polarStep_length (v w : Vector2) (s : R) :
  distance v (polarStep v w s) = Rabs s.
Proof.
  unfold polarStep, distance, plus, createPolar. simpl.
  set (t := atan2 _ _).
  replace ((x v - (x v + s * cos t)) * (x v - (x v + s * cos t)) +
           (y v - (y v + s * sin t)) * (y v - (y v + s * sin t)))
    with (s² * ((sin t)² + (cos t)²)) by (unfold Rsqr; ring).
  rewrite sin2_cos2, Rmult_1_r. apply sqrt_Rsqr_abs.
Qed.

Lemma towards_distance (v w : Vector2) (s : R) :
  0 < distance v w -> s <= distance v w ->
  distance (towards v w s) w = distance v w - s.
Proof.
  intros Hr Hs. unfold towards. set (r := distance v w) in *.
  unfold distance at 1. simpl.
  replace ((x v + s / r * (x w - x v) - x w) *
           (x v + s / r * (x w - x v) - x w) +
           (y v + s / r * (y w - y v) - y w) *
           (y v + s / r * (y w - y v) - y w))
    with ((1 - s / r)² *
          ((x v - x w) * (x v - x w) + (y v - y w) * (y v - y w)))
    by (unfold Rsqr; field; lra).
  rewrite sqrt_mult_alt by apply Rle_0_sqr.
  fold (distance v w). fold r.
  rewrite sqrt_Rsqr.
  - field. lra.
  - apply Rmult_le_reg_r with r; [ assumption | ].
    replace ((1 - s / r) * r) with (r - s) by (field; lra). lra.
Qed.

End StepGeometry.

(** ** The branches of [step] *)

Section StepBranches.

Variable dt : R.
Variable p : Particle.

Let remaining := Vector2.distance (positionProperty p) (destinationProperty p).

Lemma step_userControlled :
  userControlledProperty p = true -> step dt p = p.
Proof. intros H. unfold step. now rewrite H. Qed.

Lemma step_move :
  userControlledProperty p = false ->
  remaining > velocityProperty p * dt ->
  step dt p =
  set_positionProperty
    (polarStep (positionProperty p) (destinationProperty p)
       (velocityProperty p * dt)) p.
Proof.
  intros Hu Hr. unfold step. rewrite Hu. simpl.
  destruct (Rgt_dec _ _) as [_ | Hn]; [ reflexivity | ].
  exfalso. apply Hn. subst remaining. lra.
Qed.

Lemma step_snap :
  userControlledProperty p = false ->
  ~ remaining > velocityProperty p * dt ->
  remaining > 0 ->
  step dt p = set_positionProperty (destinationProperty p) p.
Proof.
  intros Hu Hn Hr. unfold step. rewrite Hu. simpl.
  destruct (Rgt_dec _ _) as [Hg | _].
  - exfalso. apply Hn. subst remaining. lra.
  - destruct (Rgt_dec _ _) as [_ | Hz]; [ reflexivity | ].
    exfalso. now apply Hz.
Qed.

Lemma step_rest :
  userControlledProperty p = false ->
  ~ remaining > velocityProperty p * dt ->
  ~ remaining > 0 ->
  step dt p = p.
Proof.
  intros Hu Hn Hz. unfold step. rewrite Hu. simpl.
  destruct (Rgt_dec _ _) as [Hg | _].
  - exfalso. apply Hn. subst remaining. lra.
  - destruct (Rgt_dec _ _) as [Hg | _]; [ | reflexivity ].
    exfalso. now apply Hz.
Qed.

End StepBranches.

(** ** What [step] leaves alone *)

Section StepFrame.

Variable dt : R.
Variable p : Particle.

Lemma step_destination :
  destinationProperty (step dt p) = destinationProperty p.
Proof.
  unfold step. destruct (negb _); [ | reflexivity ]. simpl.
  repeat destruct (Rgt_dec _ _); reflexivity.
Qed.

Lemma step_velocity : velocityProperty (step dt p) = velocityProperty p.
Proof.
  unfold step. destruct (negb _); [ | reflexivity ]. simpl.
  repeat destruct (Rgt_dec _ _); reflexivity.
Qed.

Lemma step_userControlledProperty :
  userControlledProperty (step dt p) = userControlledProperty p.
Proof.
  unfold step. destruct (negb _); [ | reflexivity ]. simpl.
  repeat destruct (Rgt_dec _ _); reflexivity.
Qed.

Lemma step_writes_position_only :
  step dt p = set_positionProperty (positionProperty (step dt p)) p.
Proof.
  unfold step. destruct (negb _); simpl.
  - repeat destruct (Rgt_dec _ _); simpl; try reflexivity.
    now destruct p.
  - now destruct p.
Qed.

End StepFrame.

(** ** Distance to the destination across one step *)

Section StepDistance.

Import Vector2.

Variable dt : R.
Variable p : Particle.
Hypothesis Hfree : userControlledProperty p = false.
Hypothesis Hspeed : 0 <= velocityProperty p * dt.

Let d := distance (positionProperty p) (destinationProperty p).
Let d' := distance (positionProperty (step dt p)) (destinationProperty p).

Lemma step_distance_cases :
  (d > velocityProperty p * dt /\ d' = d - velocityProperty p * dt) \/
  (d <= velocityProperty p * dt /\ d' = 0).
Proof.
  subst d d'.
  destruct (Rgt_dec (distance (positionProperty p) (destinationProperty p))
                    (velocityProperty p * dt)) as [Hg | Hg].
  - left. split; [ assumption | ].
    rewrite (step_move dt p Hfree Hg). simpl.
    rewrite polarStep_towards by lra.
    apply towards_distance; lra.
  - right. split; [ lra | ].
    destruct (Rgt_dec (distance (positionProperty p) (destinationProperty p))
                      0) as [Hz | Hz].
    + rewrite (step_snap dt p Hfree Hg Hz). simpl. apply distance_refl.
    + rewrite (step_rest dt p Hfree Hg Hz).
      pose proof (distance_nonneg (positionProperty p)
                    (destinationProperty p)). lra.
Qed.

Lemma step_distance_le : d' <= d.
Proof.
  pose proof (distance_nonneg (positionProperty p) (destinationProperty p)).
  destruct step_distance_cases as [[? ?] | [? ?]]; subst d; lra.
Qed.

End StepDistance.

(** ** Repeated steps *)

Section Steps.

Import Vector2.

Variable dt : R.

Lemma steps_S (n : nat) (p : Particle) :
  steps (S n) dt p = step dt (steps n dt p).
Proof.
  revert p. induction n as [ | n IH ]; intros p; [ reflexivity | ].
  change (steps (S (S n)) dt p) with (steps (S n) dt (step dt p)).
  now rewrite IH.
Qed.

Lemma steps_destination (n : nat) (p : Particle) :
  destinationProperty (steps n dt p) = destinationProperty p.
Proof.
  induction n as [ | n IH ]; [ reflexivity | ].
  now rewrite steps_S, step_destination.
Qed.

Lemma steps_velocity (n : nat) (p : Particle) :
  velocityProperty (steps n dt p) = velocityProperty p.
Proof.
  induction n as [ | n IH ]; [ reflexivity | ].
  now rewrite steps_S, step_velocity.
Qed.

Lemma steps_userControlledProperty (n : nat) (p : Particle) :
  userControlledProperty (steps n dt p) = userControlledProperty p.
Proof.
  induction n as [ | n IH ]; [ reflexivity | ].
  now rewrite steps_S, step_userControlledProperty.
Qed.

Lemma steps_arrive (n : nat) :
  forall p : Particle,
    userControlledProperty p = false ->
    0 <= velocityProperty p * dt ->
    distance (positionProperty p) (destinationProperty p)
      <= INR n * (velocityProperty p * dt) ->
    positionProperty (steps n dt p) = destinationProperty p.
Proof.
  induction n as [ | n IH ]; intros p Hfree Hs Hd.
  - simpl in *. apply distance_zero_eq.
    pose proof (distance_nonneg (positionProperty p) (destinationProperty p)).
    lra.
  - change (steps (S n) dt p) with (steps n dt (step dt p)).
    rewrite <- (step_destination dt p).
    apply IH.
    + now rewrite step_userControlledProperty.
    + now rewrite step_velocity.
    + rewrite step_velocity, step_destination.
      rewrite S_INR in Hd.
      pose proof (pos_INR n).
      destruct (step_distance_cases dt p Hfree Hs) as [[? E] | [? E]];
        rewrite E; nra.
Qed.

Lemma ceil_ge (r : R) : r <= IZR (ceil r).
Proof.
  unfold ceil. rewrite minus_IZR.
  destruct (archimed (- r)). lra.
Qed.

Lemma ceil_lt (r : R) : IZR (ceil r) - 1 < r.
Proof.
  unfold ceil. rewrite minus_IZR.
  destruct (archimed (- r)). lra.
Qed.

Lemma ceil_le (r : R) (z : Z) : r <= IZR z -> (ceil r <= z)%Z.
Proof.
  intros H. pose proof (ceil_lt r) as Hc.
  assert (IZR (ceil r) < IZR (z + 1)) as Hlt by (rewrite plus_IZR; lra).
  apply lt_IZR in Hlt. lia.
Qed.

End Steps.

Lemma travellingProton_distance :
  Vector2.distance (positionProperty travellingProton)
                   (destinationProperty travellingProton) = 5.
Proof.
  unfold Vector2.distance. simpl.
  replace ((0 - 3) * (0 - 3) + (0 - 4) * (0 - 4)) with (5 * 5) by ring.
  apply sqrt_square. lra.
Qed.

(** ** Arithmetic on doubles *)

Section DoubleArithmetic.



Lemma shr_1_nonneg (mrs : shr_record) :
  (0 <= shr_m mrs)%Z -> (0 <= shr_m (shr_1 mrs))%Z.
Proof.
  destruct mrs as [m r s].
  destruct m as [ | [ p | p | ] | [ p | p | ] ]; simpl; lia.
Qed.

Lemma iter_shr_1_nonneg (n : positive) :
  forall mrs : shr_record,
    (0 <= shr_m mrs)%Z -> (0 <= shr_m (SpecFloat.iter_pos shr_1 n mrs))%Z.
Proof.
  induction n as [ n IH | n IH | ]; simpl; intros mrs H.
  - apply IH, IH, shr_1_nonneg, H.
  - apply IH, IH, H.
  - apply shr_1_nonneg, H.
Qed.

Lemma shr_fexp_nonneg (m e : Z) (l : location) :
  (0 <= m)%Z -> (0 <= shr_m (fst (shr_fexp prec emax m e l)))%Z.
Proof.
  intros H. unfold shr_fexp, shr.
  assert (0 <= shr_m (shr_record_of_loc m l))%Z as H0
    by (destruct l as [ | [ | | ] ]; exact H).
  destruct (fexp prec emax (Zdigits2 m + e) - e)%Z; simpl;
    try exact H0.
  apply iter_shr_1_nonneg, H0.
Qed.

Lemma round_nearest_even_nonneg (m : Z) (l : location) :
  (0 <= m)%Z -> (0 <= round_nearest_even m l)%Z.
Proof.
  intros H. destruct l as [ | [ | | ] ]; simpl; try lia.
  destruct (Z.even m); lia.
Qed.

(** Rounding a mantissa that is not negative, with the sign of a positive
    number, gives a zero, a positive number or the positive infinity. *)
Lemma binary_round_aux_nonneg (m e : Z) (l : location) :
  (0 <= m)%Z ->
  binary_round_aux prec emax false m e l = S754_zero false \/
  (exists m' e',
     binary_round_aux prec emax false m e l = S754_finite false m' e') \/
  binary_round_aux prec emax false m e l = S754_infinity false.
Proof.
  intros H. unfold binary_round_aux.
  pose proof (shr_fexp_nonneg m e l H) as H1.
  destruct (shr_fexp prec emax m e l) as [mrs' e'].
  pose proof (shr_fexp_nonneg
                (round_nearest_even (shr_m mrs') (loc_of_shr_record mrs'))
                e' loc_Exact
                (round_nearest_even_nonneg _ _ H1)) as H2.
  destruct (shr_fexp prec emax
              (round_nearest_even (shr_m mrs') (loc_of_shr_record mrs'))
              e' loc_Exact) as [mrs'' e''].
  simpl in H2 |- *.
  destruct (shr_m mrs'') as [ | q | q ].
  - now left.
  - destruct (e'' <=? _)%Z.
    + right; left. now exists q, e''.
    + now right; right.
  - lia.
Qed.

Lemma positive_cases (f : float) :
  (0 <? f)%float = true ->
  (exists m e, Prim2SF f = S754_finite false m e) \/
  Prim2SF f = S754_infinity false.
Proof.
  rewrite FloatAxioms.ltb_spec.
  change (Prim2SF 0) with (S754_zero false).
  destruct (Prim2SF f) as [s | s | | s m e]; simpl; intros H;
    try discriminate H.
  - destruct s; [ discriminate H | now right ].
  - destruct s; [ discriminate H | left; now exists m, e ].
Qed.

Lemma negative_cases (f : float) :
  (f <? 0)%float = true ->
  (exists m e, Prim2SF f = S754_finite true m e) \/
  Prim2SF f = S754_infinity true.
Proof.
  rewrite FloatAxioms.ltb_spec.
  change (Prim2SF 0) with (S754_zero false).
  destruct (Prim2SF f) as [s | s | | s m e]; simpl; intros H;
    try discriminate H.
  - destruct s; [ now right | discriminate H ].
  - destruct s; [ left; now exists m, e | discriminate H ].
Qed.


(** A square root is a zero, a positive number, the positive infinity, or
    not a number. *)
Lemma sqrt_cases (f : float) :
  Prim2SF (PrimFloat.sqrt f) = S754_nan \/
  (exists s, Prim2SF (PrimFloat.sqrt f) = S754_zero s) \/
  (exists m e, Prim2SF (PrimFloat.sqrt f) = S754_finite false m e) \/
  Prim2SF (PrimFloat.sqrt f) = S754_infinity false.
Proof.
  rewrite FloatAxioms.sqrt_spec. unfold SF64sqrt, SFsqrt.
  destruct (Prim2SF f) as [s | s | | s m e].
  - right; left. now exists s.
  - destruct s; [ now left | now right; right; right ].
  - now left.
  - destruct s; [ now left | ].
    assert (0 <= fst (fst (SFsqrt_core_binary prec emax (Z.pos m) e)))%Z
      as Hz.
    { unfold SFsqrt_core_binary. cbv zeta.
      match goal with
      | |- context [ Z.sqrtrem ?a ] => generalize a; intros a'
      end.
      pose proof (Z.sqrtrem_sqrt a') as Hs.
      pose proof (Z.sqrt_nonneg a') as Hn.
      destruct (Z.sqrtrem a') as [q r]. cbn [fst] in Hs |- *.
      rewrite Hs. exact Hn. }
    destruct (SFsqrt_core_binary prec emax (Z.pos m) e) as [[mz ez] lz].
    simpl in Hz.
    destruct (binary_round_aux_nonneg mz ez lz Hz)
      as [E | [(m' & e' & E) | E]]; rewrite E.
    + right; left. now exists false.
    + right; right; left. now exists m', e'.
    + now right; right; right.
Qed.

Lemma sqrt_not_positive (f : float) :
  (0 <? PrimFloat.sqrt f)%float = false ->
  is_zero (PrimFloat.sqrt f) = true \/ is_nan (PrimFloat.sqrt f) = true.
Proof.
  unfold is_zero, is_nan.
  rewrite FloatAxioms.ltb_spec, !FloatAxioms.eqb_spec.
  change (Prim2SF 0) with (S754_zero false).
  change (Prim2SF zero) with (S754_zero false).
  destruct (sqrt_cases f) as [E | [[s E] | [(m & e & E) | E]]]; rewrite E;
    simpl; intros H; try discriminate H.
  - now right.
  - now left.
Qed.

(** A number below zero is below every square root that is a number. *)
Lemma negative_below_sqrt (a f : float) :
  (a <? 0)%float = true ->
  is_nan (PrimFloat.sqrt f) = false ->
  (a <? PrimFloat.sqrt f)%float = true.
Proof.
  intros Ha. unfold is_nan.
  rewrite FloatAxioms.ltb_spec, FloatAxioms.eqb_spec.
  destruct (negative_cases a Ha) as [(ma & ea & Ea) | Ea]; rewrite Ea;
    destruct (sqrt_cases f) as [E | [[s E] | [(m & e & E) | E]]]; rewrite E;
    simpl; intros H; try discriminate H; reflexivity.
Qed.

Lemma pow2_times_six (j : nat) :
  forall n : Z, (n * 5 <> 6 * 2 ^ Z.of_nat j)%Z.
Proof.
  induction j as [ | j IH ]; intros n H.
  - simpl in H. lia.
  - rewrite Nat2Z.inj_succ, Z.pow_succ_r in H by lia.
    destruct (Z.Even_or_Odd n) as [[k Hk] | [k Hk]]; subst n.
    + apply (IH k). lia.
    + lia.
Qed.

(** No double stands for six fifths: the value of one is an integer times a
    power of two. *)
Lemma no_double_is_six_fifths (f : float) (v : Q) :
  Binary64.valueOf f = Some v -> ~ (v == 6 # 5)%Q.
Proof.
  unfold Binary64.valueOf.
  destruct (Prim2SF f) as [s | s | | s m e]; intros E; try discriminate E;
    injection E as <-.
  - intros H. discriminate H.
  - intros H.
    destruct e as [ | k | k ].
    + destruct s; unfold Qeq in H; simpl in H; lia.
    + assert ((2 ^ Z.pos k)%Q == inject_Z (2 ^ Z.pos k)) as E2
        by (rewrite Zpower_Qpower by lia; reflexivity).
      rewrite E2 in H.
      destruct s; unfold Qeq in H; simpl in H; lia.
    + assert ((2 ^ Z.neg k)%Q == / inject_Z (2 ^ Z.pos k))%Q as E2.
      { change (Z.neg k) with (- Z.pos k)%Z. rewrite Qpower_opp.
        rewrite Zpower_Qpower by lia. reflexivity. }
      rewrite E2 in H.
      assert (0 < 2 ^ Z.pos k)%Z as Hpos by (apply Z.pow_pos_nonneg; lia).
      assert (((if s then -1 else 1) * inject_Z (Z.pos m)
               == (6 # 5) * inject_Z (2 ^ Z.pos k))%Q) as H'.
      { rewrite <- H. field. intros Hz. unfold Qeq in Hz. simpl in Hz. lia. }
      rewrite <- (positive_nat_Z k) in H'.
      destruct s; unfold Qeq, Qmult, inject_Z in H'; cbn [Qnum Qden] in H'.
      * apply (pow2_times_six (Pos.to_nat k) (Z.neg m)). lia.
      * apply (pow2_times_six (Pos.to_nat k) (Z.pos m)). lia.
Qed.

End DoubleArithmetic.

(** ** The motion controller on doubles: the claims *)

Section StepOnDoubles.

(** The names of this section are those of [Binary64]. *)
Import Binary64.





(** C1, as the code has it. One call of [step] on doubles, with
    [remaining] the distance from position to destination as
    [Vector2.distance] computes it: a user-controlled particle is left as
    it is; otherwise, if
    [remaining > dt * velocity], the position becomes
    [position.plus( Vector2.createPolar( velocity * dt, angle ) )], both
    coordinates from the one angle that [Math.atan2] gives for
    [destination - position], every operation rounded; else if
    [remaining > 0] the position becomes the destination, exactly; else
    nothing changes, and then [remaining] is a zero or not a number. *)
Theorem step_contract_on_doubles (M : Math) (p : Particle) (dt : float) :
  let position := positionProperty p in
  let destination := destinationProperty p in
  let velocity := velocityProperty p in
  let remaining := Vector2.distance position destination in
  (userControlledProperty p = true -> step M dt p = p) /\
  (userControlledProperty p = false ->
   (dt * velocity <? remaining)%float = true ->
   let angle :=
     atan2 M (Vector2.y destination - Vector2.y position)
             (Vector2.x destination - Vector2.x position) in
   step M dt p =
     set_positionProperty
       (Vector2.mk
          (Vector2.x position + velocity * dt * cos M angle)
          (Vector2.y position + velocity * dt * sin M angle)) p) /\
  (userControlledProperty p = false ->
   (dt * velocity <? remaining)%float = false ->
   (0 <? remaining)%float = true ->
   step M dt p = set_positionProperty destination p) /\
  (userControlledProperty p = false ->
   (dt * velocity <? remaining)%float = false ->
   (0 <? remaining)%float = false ->
   step M dt p = p /\
   (is_zero remaining = true \/ is_nan remaining = true)).
Proof.
  intros position destination velocity remaining.
  split; [ intros Hu; unfold step; now rewrite Hu | ].
  split.
  { intros Hu H1 angle. unfold step.
    fold position destination velocity remaining. now rewrite Hu, H1. }
  split.
  { intros Hu H1 H2. unfold step.
    fold position destination velocity remaining. now rewrite Hu, H1, H2. }
  intros Hu H1 H2. split.
  - unfold step. fold position destination velocity remaining.
    now rewrite Hu, H1, H2.
  - apply sqrt_not_positive. exact H2.
Qed.

(** C1 fails as stated. The proton with a velocity of 128, at [(0, 0)] on
    its way to [(3, 4)], is 5 away; a step of a sixty-fourth of a second is
    of length 2 and takes the moving branch; the point 2 along the straight
    line is [(6/5, 8/5)], and whatever [Math] returns the new [x] is not
    six fifths, which no double is. And the proton whose destination is
    [2 ^ -600] to its right is not at its destination, yet a step changes
    nothing: the distance computed is 0. *)
Lemma step_inexact_on_doubles :
  ((0.015625 * velocityProperty diagonalProton)%float = 2%float /\
   Vector2.distance (positionProperty diagonalProton)
     (destinationProperty diagonalProton) = 5%float /\
   forall M : Math,
     step M 0.015625 diagonalProton =
       set_positionProperty
         (Vector2.mk (0 + 2 * cos M (atan2 M 4 3))
                     (0 + 2 * sin M (atan2 M 4 3))) diagonalProton /\
     forall v : Q,
       valueOf
         (Vector2.x (positionProperty (step M 0.015625 diagonalProton))) =
         Some v ->
       ~ (v == 6 # 5)%Q) /\
  ((Vector2.x (positionProperty closeProton) <?
      Vector2.x (destinationProperty closeProton))%float = true /\
   Vector2.distance (positionProperty closeProton)
     (destinationProperty closeProton) = 0%float /\
   forall M : Math, step M 0.015625 closeProton = closeProton).
Proof.
  split.
  - split; [ reflexivity | ]. split; [ reflexivity | ].
    intros M. split; [ reflexivity | ].
    intros v. apply no_double_is_six_fifths.
  - split; [ reflexivity | ]. split; [ reflexivity | ].
    intros M. reflexivity.
Qed.





(** The engine of the examples has the values that the language fixes at a
    zero angle. *)
Lemma seriesMath_exactAtZero : exactAtZero seriesMath.
Proof.
  split; [ | split; reflexivity ].
  intros x Hx. unfold seriesMath. cbn [atan2]. rewrite Hx.
  assert ((0 / x)%float = 0%float) as E.
  { apply Prim2SF_inj. rewrite FloatAxioms.div_spec.
    change (Prim2SF 0) with (S754_zero false).
    destruct (positive_cases x Hx) as [(m & e & Ex) | Ex]; rewrite Ex;
      reflexivity. }
  rewrite E. reflexivity.
Qed.

End StepOnDoubles.

(** ** The motion controller in exact arithmetic *)

(** One call of [step] in exact arithmetic, with [dt >= 0]: a
    user-controlled particle is left as it is; otherwise, with [remaining]
    the distance from position to destination, if [remaining > speed * dt]
    the position becomes the polar step of magnitude [speed * dt] at the
    angle of [destination - position]: a point at distance [|speed * dt|]
    from the old position, on the straight line from position to
    destination whenever the two differ; with a speed that is not negative
    they do differ and the distance moved is exactly [speed * dt]. Else if
    [remaining > 0] the position becomes the destination; else nothing
    changes. On doubles the point that the moving branch computes is
    rounded. *)
Lemma step_contract_exact (p : Particle) (dt : R) :
  0 <= dt ->
  let position := positionProperty p in
  let destination := destinationProperty p in
  let speed := velocityProperty p in
  let remaining := Vector2.distance position destination in
  (userControlledProperty p = true -> step dt p = p) /\
  (userControlledProperty p = false -> remaining > speed * dt ->
     step dt p =
       set_positionProperty (polarStep position destination (speed * dt)) p /\
     Vector2.distance position (positionProperty (step dt p)) =
       Rabs (speed * dt) /\
     (0 < remaining ->
        positionProperty (step dt p) =
          towards position destination (speed * dt)) /\
     (0 <= speed -> 0 < remaining /\ Rabs (speed * dt) = speed * dt)) /\
  (userControlledProperty p = false -> ~ remaining > speed * dt ->
     remaining > 0 ->
     step dt p = set_positionProperty destination p) /\
  (userControlledProperty p = false -> ~ remaining > speed * dt ->
     ~ remaining > 0 ->
     step dt p = p).
Proof.
  intros Hdt position destination speed remaining.
  split; [ apply step_userControlled | ].
  split; [ | split; [ apply step_snap | apply step_rest ] ].
  intros Hfree Hr.
  pose proof (step_move dt p Hfree Hr) as E. split; [ exact E | ].
  rewrite E. simpl. fold position destination.
  split; [ apply polarStep_length | ].
  split; [ apply polarStep_towards | ].
  intros Hv.
  assert (0 <= speed * dt) as Hs by (subst speed; nra).
  split; [ lra | now apply Rabs_pos_eq ].
Qed.

(** C10. [step] writes at most the position: destination, velocity,
    userControlled, radius, zLayer and type (and the field that the view
    adds) are the same after the call, for every particle and every [dt]. *)
Theorem step_frame (p : Particle) (dt : R) :
  destinationProperty (step dt p) = destinationProperty p /\
  velocityProperty (step dt p) = velocityProperty p /\
  userControlledProperty (step dt p) = userControlledProperty p /\
  radiusProperty (step dt p) = radiusProperty p /\
  zLayerProperty (step dt p) = zLayerProperty p /\
  type (step dt p) = type p /\
  isAccessibleControlled (step dt p) = isAccessibleControlled p.
Proof.
  rewrite (step_writes_position_only dt p). simpl. repeat split.
Qed.

(** Repeated steps in exact arithmetic. For a particle that is not user
    controlled, with a speed and a [dt] above zero: the distance to the
    destination never grows from one step to the next; after
    [ceil (initialDistance / (speed * dt))] steps, and after any greater
    number of them, the position is the destination; and once the distance
    is zero a step changes nothing. On doubles the bound can be missed,
    and only the last part is kept. *)
Lemma steps_converge_exact (p : Particle) (dt : R) :
  userControlledProperty p = false ->
  0 < velocityProperty p ->
  0 < dt ->
  let destination := destinationProperty p in
  let initialDistance := Vector2.distance (positionProperty p) destination in
  (forall n : nat,
     Vector2.distance (positionProperty (steps (S n) dt p)) destination
       <= Vector2.distance (positionProperty (steps n dt p)) destination) /\
  (forall n : nat,
     (ceil (initialDistance / (velocityProperty p * dt)) <= Z.of_nat n)%Z ->
     positionProperty (steps n dt p) = destination) /\
  (forall n : nat,
     Vector2.distance (positionProperty (steps n dt p)) destination = 0 ->
     step dt (steps n dt p) = steps n dt p).
Proof.
  intros Hfree Hv Hdt destination initialDistance.
  assert (0 < velocityProperty p * dt) as Hs by nra.
  split; [ | split ].
  - intros n. rewrite steps_S.
    subst destination. rewrite <- (steps_destination dt n p).
    apply step_distance_le.
    + now rewrite steps_userControlledProperty.
    + rewrite steps_velocity. lra.
  - intros n Hn. apply steps_arrive; [ assumption | lra | ].
    apply IZR_le in Hn. rewrite <- INR_IZR_INZ in Hn.
    pose proof (ceil_ge (initialDistance / (velocityProperty p * dt))) as Hc.
    assert (initialDistance / (velocityProperty p * dt) <= INR n) as Hq by lra.
    apply (Rmult_le_compat_r (velocityProperty p * dt)) in Hq; [ | lra ].
    replace (initialDistance / (velocityProperty p * dt) *
             (velocityProperty p * dt)) with initialDistance in Hq
      by (field; lra).
    exact Hq.
  - intros n Hz. apply step_rest.
    + now rewrite steps_userControlledProperty.
    + subst destination. rewrite steps_velocity, steps_destination, Hz. lra.
    + subst destination. rewrite steps_destination, Hz. lra.
Qed.

(** ** The listeners when nothing is being placed *)

Ltac run_listener :=
  unfold keydown, viewKeydown, ringKeydown, accessibleSelect, runTimer,
    fireTimer, chooseElectron, addParticleFirstOpen, setTimeout,
    updateParticle, focusNode, modifyView, modifyRing, modifyPage,
    deref, bind, get, modify, ret, throw;
  cbn.

(** Runs the listeners on a closed world, leaving real arithmetic alone. *)
Ltac run_example :=
  cbv -[Rplus Rmult Rminus Ropp Rinv Rdiv Req_dec_T INR IZR].

Lemma placeOrEnd_not_arrow (keyCode : KeyCode) :
  isPlaceOrEnd keyCode = true ->
  isDownRight keyCode || isUpLeft keyCode = false.
Proof. intros H. destruct keyCode; cbv in *; congruence. Qed.

Lemma viewKeydown_idle (w : World) (keyCode : KeyCode) :
  idle w -> isPlaceOrEnd keyCode = true ->
  viewKeydown keyCode w = Returned tt w.
Proof.
  intros [Hview _] Hkey. run_listener.
  rewrite (placeOrEnd_not_arrow keyCode Hkey), Hkey.
  destruct (View.selectingShellNucleusOptions (view w)); [ | reflexivity ].
  destruct Hview as [Hsel | Hnone]; [ discriminate | ].
  now rewrite Hnone.
Qed.

Lemma ringKeydown_idle (r : RingId) (w : World) (keyCode : KeyCode) :
  idle w -> ringKeydown r keyCode w = Returned tt w.
Proof.
  intros [_ Hring]. run_listener. rewrite (Hring r).
  now destruct (Ring.choosingElectronPlacement (ring r w)).
Qed.

Lemma newWorld_idle (atom : Atom) particles bucketEffect :
  idle (newWorld atom particles bucketEffect).
Proof.
  split; [ now left | ]. now intros [ | ].
Qed.

(** C8. When no particle is being placed, Enter, Space, Escape and Tab do
    nothing in either listener: the listener returns, it does not throw,
    and the world (particles, indices, focus, visibility of the slots) is
    the one it was called on. *)
Theorem idle_place_or_end_is_noop (w : World) (keyCode : KeyCode) :
  idle w -> isPlaceOrEnd keyCode = true ->
  forall l : Level, keydown l keyCode w = Returned tt w.
Proof.
  intros Hidle Hkey [ | r ].
  - now apply viewKeydown_idle.
  - now apply ringKeydown_idle.
Qed.

Lemma idle_place_or_end_is_noop_witness :
  viewKeydown KEY_ESCAPE exampleWorld = Returned tt exampleWorld /\
  ringKeydown OuterRing KEY_TAB exampleWorld = Returned tt exampleWorld.
Proof.
  split.
  - apply (idle_place_or_end_is_noop exampleWorld KEY_ESCAPE
             (newWorld_idle _ _ _) eq_refl Top).
  - apply (idle_place_or_end_is_noop exampleWorld KEY_TAB
             (newWorld_idle _ _ _) eq_refl (Slot OuterRing)).
Defined.

(** ** Starting a selection *)

Lemma accessibleSelect_returns (w : World) (particle : ParticleRef)
    (bucketFront : BucketFrontRef) :
  accessibleSelect particle bucketFront w =
  Returned tt
    (mkWorld
       (View.mk true (View.previouslyFocusedNode (view w))
          (View.currentOptionIndex (view w)) (Some particle)
          (Some bucketFront) (View.focusable (view w)) false
          (View.shellNucleusHoverLocations (view w)))
       (innerRing w) (outerRing w)
       (Page.set_focus
          (Some (OptionNodeRef (View.previouslyFocusedNode (view w))))
          (page w))).
Proof. reflexivity. Qed.

Lemma topSessionWorld_reached :
  accessibleSelect 1%nat 1%nat exampleWorld = Returned tt topSessionWorld.
Proof. reflexivity. Qed.

Lemma slotSessionWorld_reached :
  (viewKeydown KEY_DOWN_ARROW ;; viewKeydown KEY_DOWN_ARROW ;;
   viewKeydown KEY_ENTER) topSessionWorld = Returned tt slotSessionWorld.
Proof. run_example. reflexivity. Qed.

Lemma topSessionWorld_session : session Top topSessionWorld 1%nat 1%nat.
Proof.
  repeat split; destruct r; repeat constructor.
Qed.

(** C3, as the code has it. [accessibleSelect] never rejects a call: with or
    without a session in progress it returns, and afterwards the view holds
    the particle and the bucket front of this call and is selecting among
    the three options; the index of the highlighted option and both rings
    are as they were. *)
Theorem accessibleSelect_always_accepts (w : World) (particle : ParticleRef)
    (bucketFront : BucketFrontRef) :
  exists w' : World,
    accessibleSelect particle bucketFront w = Returned tt w' /\
    sessionParticle Top w' = Some particle /\
    sessionOrigin Top w' = Some bucketFront /\
    View.selectingShellNucleusOptions (view w') = true /\
    View.currentOptionIndex (view w') = View.currentOptionIndex (view w) /\
    innerRing w' = innerRing w /\
    outerRing w' = outerRing w.
Proof.
  eexists. split; [ apply accessibleSelect_returns | ].
  repeat split.
Qed.

(** C3 fails as stated: with the session of particle 1 from bucket front 1
    in progress, a second [accessibleSelect] returns without an error and
    the session's particle and origin are now those of the second call. *)
Lemma second_accessibleSelect_overwrites :
  session Top topSessionWorld 1%nat 1%nat /\
  exists w' : World,
    accessibleSelect 2%nat 2%nat topSessionWorld = Returned tt w' /\
    sessionParticle Top w' = Some 2%nat /\
    sessionOrigin Top w' = Some 2%nat.
Proof.
  split; [ apply topSessionWorld_session | ].
  eexists. split; [ apply accessibleSelect_returns | ].
  split; reflexivity.
Qed.

(** ** The deferred refocus *)

(** C9, as the code has it. Nothing cancels a pending refocus:
    [accessibleSelect] leaves the pending timeouts as they are, and when
    the view's refocus fires after it, the focus goes to the bucket front
    of the new selection, which the view then forgets while it still holds
    the particle; the refocus of a ring goes to the bucket front that the
    ring holds, and throws when it holds none. *)
Theorem refocus_outlives_accessibleSelect (w : World)
    (particle : ParticleRef) (bucketFront : BucketFrontRef) :
  exists w' : World,
    accessibleSelect particle bucketFront w = Returned tt w' /\
    Page.timers (page w') = Page.timers (page w) /\
    (exists w'' : World,
       runTimer RefocusFromShellView w' = Returned tt w'' /\
       Page.focus (page w'') = Some (BucketFrontNodeRef bucketFront) /\
       sessionOrigin Top w'' = None /\
       sessionParticle Top w'' = Some particle) /\
    (forall r : RingId,
       match Ring.activeBucketFront (ring r w) with
       | Some stale =>
           exists w'' : World,
             runTimer (RefocusFromRing r) w' = Returned tt w'' /\
             Page.focus (page w'') = Some (BucketFrontNodeRef stale) /\
             sessionParticle Top w'' = Some particle
       | None =>
           exists e : JSError, runTimer (RefocusFromRing r) w' = Threw e w'
       end).
Proof.
  eexists. split; [ apply accessibleSelect_returns | ].
  cbn. split; [ reflexivity | ]. split.
  - eexists. split; [ reflexivity | ]. repeat split.
  - intros r. run_listener.
    destruct r; cbn.
    + destruct (Ring.activeBucketFront (innerRing w)); eexists;
        [ split; [ reflexivity | split; reflexivity ] | reflexivity ].
    + destruct (Ring.activeBucketFront (outerRing w)); eexists;
        [ split; [ reflexivity | split; reflexivity ] | reflexivity ].
Qed.

(** C9 fails as stated: Escape ends the session of particle 1 and schedules
    the refocus; [accessibleSelect] then starts the session of particle 2
    and focuses the nucleus option, with the refocus still pending; when
    it fires, the focus goes to bucket front 2 and the view forgets the
    origin of the session in progress. *)
Lemma stale_refocus_steals_focus :
  exists w1 w2 w3 : World,
    viewKeydown KEY_ESCAPE topSessionWorld = Returned tt w1 /\
    Page.timers (page w1) = [ RefocusFromShellView ] /\
    accessibleSelect 2%nat 2%nat w1 = Returned tt w2 /\
    Page.timers (page w2) = [ RefocusFromShellView ] /\
    session Top w2 2%nat 2%nat /\
    Page.focus (page w2) = Some (OptionNodeRef CenterOption) /\
    fireTimer w2 = Returned tt w3 /\
    Page.focus (page w3) = Some (BucketFrontNodeRef 2%nat) /\
    sessionParticle Top w3 = Some 2%nat /\
    sessionOrigin Top w3 = None.
Proof.
  set (w1 := worldOf (viewKeydown KEY_ESCAPE topSessionWorld)).
  set (w2 := worldOf (accessibleSelect 2%nat 2%nat w1)).
  exists w1, w2, (worldOf (fireTimer w2)).
  subst w2 w1. run_example.
  repeat split; destruct r; repeat constructor.
Qed.

(** ** The end of a session *)

Lemma reset_nodes_at_rest (nodes : list PlacementNode.t) :
  Forall (fun n => PlacementNode.focusable n = false /\
                   PlacementNode.visible n = false)
         (map (fun _ => PlacementNode.mk false true false) nodes).
Proof. induction nodes; simpl; constructor; auto. Qed.

Ltac close_resolution Hrest Ho :=
  repeat match goal with
  | |- _ /\ _ => split
  | |- _ = _ => first [ reflexivity | assumption ]
  | |- _ \/ _ -> _ =>
      let H := fresh "H" in
      intros [H | H]; try discriminate H
  | |- _ <> _ -> _ =>
      let H := fresh "H" in
      intros H; try (exfalso; apply H; reflexivity)
  | |- _ = _ -> _ =>
      let H := fresh "H" in
      intros H; try discriminate H
  | |- forall r : RingId, slotsAtRest _ =>
      let r0 := fresh "r" in
      intros r0; destruct r0; unfold slotsAtRest; cbn;
      solve [ apply reset_nodes_at_rest
            | apply (Hrest InnerRing) | apply (Hrest OuterRing)
            | apply Hrest ]
  | |- forall r : RingId, _ = _ =>
      let r0 := fresh "r" in
      intros r0; destruct r0; reflexivity
  | |- idle _ =>
      split;
      [ cbn; solve [ now right | left; apply Hrest ]
      | let r0 := fresh "r" in
        intros r0; destruct r0; cbn;
        solve [ reflexivity | apply (Hrest InnerRing)
              | apply (Hrest OuterRing) | apply Hrest ] ]
  | |- exists _ : World, _ =>
      try rewrite Ho; cbn; eexists; split; [ reflexivity | ]; cbn
  end.

Lemma storeParticle_same (r : ParticleRef) (p : Particle)
    (h : ParticleRef -> Particle) :
  storeParticle r p h r = p.
Proof. unfold storeParticle. now rewrite Nat.eqb_refl. Qed.

(** What the end of a session does, and what it leaves undone. A session
    at either level, and a key that ends it there. The listener returns.
    After Tab or Escape the bucket of the origin has been asked once more,
    for this particle, to add it at its first open place; after Enter or
    Space it has not, and the particle's destination is the one it had. In
    every case the particle is no longer user controlled, no slot of either
    ring is visible or focusable, the level holds no particle any more, and
    the focus has not moved. After Tab no timeout has been added and the
    origin is forgotten at once; after the other keys exactly one timeout
    has been added, and when it runs it focuses the origin and forgets it.
    The flags that say that a placement is going on are not written:
    [selectingShellNucleusOptions] and [choosingElectronPlacement] are what
    they were. *)
Lemma session_end_resolution (l : Level) (w : World)
    (particle : ParticleRef) (bucketFront : BucketFrontRef)
    (keyCode : KeyCode) :
  session l w particle bucketFront ->
  endsSession l keyCode w = true ->
  exists w' : World,
    keydown l keyCode w = Returned tt w' /\
    (keyCode = KEY_TAB \/ keyCode = KEY_ESCAPE ->
     Page.calls (page w') =
       Page.calls (page w) ++
       [ AddParticleFirstOpen bucketFront particle true ]) /\
    (keyCode = KEY_ENTER \/ keyCode = KEY_SPACE ->
     Page.calls (page w') = Page.calls (page w) /\
     destinationProperty (Page.particles (page w') particle) =
       destinationProperty (Page.particles (page w) particle)) /\
    userControlledProperty (Page.particles (page w') particle) = false /\
    (forall r : RingId, slotsAtRest (ring r w')) /\
    sessionParticle l w' = None /\
    idle w' /\
    Page.focus (page w') = Page.focus (page w) /\
    (keyCode = KEY_TAB ->
     Page.timers (page w') = Page.timers (page w) /\
     sessionOrigin l w' = None) /\
    (keyCode <> KEY_TAB ->
     Page.timers (page w') = Page.timers (page w) ++ [ refocusTimer l ] /\
     exists w'' : World,
       runTimer (refocusTimer l) w' = Returned tt w'' /\
       Page.focus (page w'') = Some (BucketFrontNodeRef bucketFront) /\
       sessionOrigin l w'' = None) /\
    View.selectingShellNucleusOptions (view w') =
      View.selectingShellNucleusOptions (view w) /\
    (forall r : RingId,
       Ring.choosingElectronPlacement (ring r w') =
       Ring.choosingElectronPlacement (ring r w)).
Proof.
  intros (Hp & Ho & Hl) Hkey. destruct l as [ | r ].
  - destruct Hl as [Hsel Hrest]. simpl in Hp, Ho, Hkey.
    apply andb_prop in Hkey. destruct Hkey as [Hend Hchoice].
    destruct keyCode; try discriminate Hend; run_listener;
      rewrite Hsel, Hp, Ho; cbn in Hchoice; try rewrite Hchoice; cbn;
      destruct (Page.particleCount (page w) =? 0)%Z; cbn;
      eexists; (split; [ reflexivity | ]); cbn;
      rewrite ?storeParticle_same; cbn;
      close_resolution Hrest Ho.
  - destruct Hl as [Hsel Hrest]. simpl in Hp, Ho, Hkey.
    destruct r; cbn in Hsel, Hp, Ho, Hrest;
      destruct keyCode; try discriminate Hkey; run_listener;
      rewrite Hsel, Hp, Ho; cbn;
      eexists; (split; [ reflexivity | ]); cbn;
      rewrite ?storeParticle_same; cbn;
      close_resolution Hrest Ho.
Qed.

Lemma slotSessionWorld_session :
  session (Slot OuterRing) slotSessionWorld 1%nat 1%nat.
Proof. repeat split; repeat constructor. Qed.

(** C2. The code does not clear the session. Escape ends the session of
    [topSessionWorld]: the bucket has been asked to take the particle back
    and the view holds no particle, but [selectingShellNucleusOptions] is
    still true. The branch that ends a session never writes it, the branch
    that goes down to a ring does. So the listener acts on the next arrow
    key as in a session, and throws a TypeError. Enter ends the session on
    the outer ring of [slotSessionWorld]: the ring holds no particle, but
    [choosingElectronPlacement] is still true, and false has been written
    to [choosingElectronPlaement], a field that did not exist. *)
Lemma session_end_keeps_flags :
  (exists w1 : World,
     keydown Top KEY_ESCAPE topSessionWorld = Returned tt w1 /\
     Page.calls (page w1) =
       Page.calls (page topSessionWorld) ++
       [ AddParticleFirstOpen 1%nat 1%nat true ] /\
     sessionParticle Top w1 = None /\
     View.selectingShellNucleusOptions (view w1) = true /\
     exists (w2 : World) (message : string),
       keydown Top KEY_DOWN_ARROW w1 = Threw (TypeError message) w2) /\
  View.selectingShellNucleusOptions (view slotSessionWorld) = false /\
  Ring.choosingElectronPlaement (ring OuterRing slotSessionWorld) = None /\
  (exists w1 : World,
     keydown (Slot OuterRing) KEY_ENTER slotSessionWorld = Returned tt w1 /\
     sessionParticle (Slot OuterRing) w1 = None /\
     Ring.choosingElectronPlacement (ring OuterRing w1) = true /\
     Ring.choosingElectronPlaement (ring OuterRing w1) = Some false).
Proof.
  split; [ | split; [ reflexivity | split; [ reflexivity | ] ] ].
  - exists (worldOf (keydown Top KEY_ESCAPE topSessionWorld)).
    split; [ run_example; reflexivity | ].
    split; [ run_example; reflexivity | ].
    split; [ run_example; reflexivity | ].
    split; [ run_example; reflexivity | ].
    exists (worldOf
              (keydown Top KEY_DOWN_ARROW
                 (worldOf (keydown Top KEY_ESCAPE topSessionWorld)))).
    eexists. run_example. reflexivity.
  - exists (worldOf (keydown (Slot OuterRing) KEY_ENTER slotSessionWorld)).
    run_example. repeat split; reflexivity.
Qed.

(** ** Placing a particle without animation *)

Lemma step_at_destination (p : Particle) (dt : R) :
  0 <= velocityProperty p * dt ->
  positionProperty p = destinationProperty p ->
  step dt p = p.
Proof.
  intros Hs Hat.
  destruct (userControlledProperty p) eqn:Hu;
    [ now apply step_userControlled | ].
  apply step_rest; [ assumption | | ];
    rewrite Hat, distance_refl; lra.
Qed.

(** C6, as the code has it. With a Vector2, [setPositionAndDestination]
    returns with the destination and then the position set to it, and a
    step that follows (its [dt] and the speed not negative) leaves the
    position there exactly. With anything else, it throws the assertion's
    error when assertions are enabled, and otherwise returns with the
    particle untouched. *)
Theorem setPositionAndDestination_contract (assertEnabled : bool)
    (newPosition : JSValue) (p : Particle) (dt : R) :
  0 <= dt ->
  0 <= velocityProperty p ->
  match instanceofVector2 newPosition with
  | Some v =>
      exists p' : Particle,
        setPositionAndDestination assertEnabled newPosition p = Normal p' /\
        p' = set_positionProperty v (set_destinationProperty v p) /\
        positionProperty (step dt p') = v
  | None =>
      setPositionAndDestination assertEnabled newPosition p =
      if assertEnabled
      then Thrown (AssertionError "Attempt to set non-vector position.")
      else Normal p
  end.
Proof.
  intros Hdt Hv. unfold setPositionAndDestination.
  destruct (instanceofVector2 newPosition) as [v | ]; [ | reflexivity ].
  eexists. split; [ reflexivity | ]. split; [ reflexivity | ].
  rewrite step_at_destination; [ reflexivity | simpl; nra | reflexivity ].
Qed.

Lemma setPositionAndDestination_contract_witness :
  exists p' : Particle,
    setPositionAndDestination true (JSVector2 (Vector2.mk 1 2))
      travellingProton = Normal p' /\
    positionProperty (step (1 / 100) p') = Vector2.mk 1 2.
Proof.
  destruct (setPositionAndDestination_contract true
              (JSVector2 (Vector2.mk 1 2)) travellingProton (1 / 100))
    as (p' & Hset & _ & Hstep).
  - lra.
  - simpl. unfold DEFAULT_PARTICLE_VELOCITY. lra.
  - exists p'. split; assumption.
Defined.

(** C6 fails as stated: with assertions disabled, a call with [undefined],
    or with an object literal that has an [x] and a [y] but is no Vector2,
    does not fail; it returns and the particle is as it was. *)
Lemma setPositionAndDestination_silent :
  setPositionAndDestination false JSUndefined travellingProton =
    Normal travellingProton /\
  setPositionAndDestination false (JSPlainObject 1 2) travellingProton =
    Normal travellingProton.
Proof. split; reflexivity. Qed.

(** ** The arrow keys *)

Lemma viewKeydown_arrow (w : World) (particle : ParticleRef)
    (bucketFront : BucketFrontRef) (keyCode : KeyCode) (i : Z) :
  session Top w particle bucketFront ->
  indexInRange Top w i ->
  isDownRight keyCode || isUpLeft keyCode = true ->
  exists w' : World,
    viewKeydown keyCode w = Returned tt w' /\
    session Top w' particle bucketFront /\
    indexInRange Top w' ((i + arrowDelta Top keyCode) mod optionCount Top w).
Proof.
  intros (Hp & Ho & Hsel & Hrest) (Hi & Hrange & _) Hkey.
  simpl in Hp, Ho, Hi, Hrange. injection Hi as Hi.
  assert (i = 0 \/ i = 1 \/ i = 2)%Z as Hcases by lia.
  destruct Hcases as [ -> | [ -> | -> ] ];
    destruct keyCode; try discriminate Hkey;
    run_listener; rewrite Hsel; cbn;
    unfold viewArrowIndex; cbn; rewrite Hi; cbn; rewrite Hp; cbn;
    eexists; (split; [ reflexivity | ]);
    (split;
     [ unfold session; cbn; repeat split; try assumption; apply Hrest
     | unfold indexInRange; cbn; repeat split; lia ]).
Qed.

Lemma index_in_range {A : Type} (l : list A) (i : Z) :
  (0 <= i < Z.of_nat (List.length l))%Z ->
  exists a : A, js_index l (Int i) = Some (Z.to_nat i, a).
Proof.
  intros Hi. unfold js_index, index.
  destruct (i <? 0)%Z eqn:E; [ lia | ].
  destruct (nth_error l (Z.to_nat i)) as [a | ] eqn:En.
  - now exists a.
  - apply nth_error_None in En. lia.
Qed.

Lemma setVisibleAt_length (i : nat) (b : bool) (nodes : list PlacementNode.t) :
  List.length (setVisibleAt i b nodes) = List.length nodes.
Proof.
  revert i. induction nodes as [ | n rest IH ]; intros [ | j ]; simpl;
    auto.
Qed.

Lemma ringArrowIndex_in_range (keyCode : KeyCode) (this : Ring.t) (i : Z) :
  Ring.currentOptionIndex this = Int i ->
  (0 <= i < Z.of_nat (List.length (Ring.electronPlacementNodes this)))%Z ->
  ringArrowIndex keyCode this =
  Int ((i + arrowDelta (Slot InnerRing) keyCode)
       mod Z.of_nat (List.length (Ring.electronPlacementNodes this))).
Proof.
  intros Hi Hrange. unfold ringArrowIndex, arrowDelta. rewrite Hi.
  set (n := Z.of_nat _) in *.
  destruct (isUpLeft keyCode).
  - simpl. destruct (n =? 0)%Z eqn:E; [ lia | ].
    rewrite Z.rem_mod_nonneg by lia. reflexivity.
  - destruct (isDownRight keyCode); simpl.
    + destruct (i + -1 <? 0)%Z eqn:E.
      * assert (i = 0)%Z by lia. subst i.
        replace (0 + -1)%Z with (-1)%Z by lia.
        f_equal. apply Z.mod_unique with (q := (-1)%Z); lia.
      * f_equal. symmetry. apply Z.mod_small. lia.
    + f_equal. rewrite Z.add_0_r. symmetry. apply Z.mod_small. lia.
Qed.

Lemma ringKeydown_arrow (r : RingId) (w : World) (particle : ParticleRef)
    (bucketFront : BucketFrontRef) (keyCode : KeyCode) (i : Z) :
  session (Slot r) w particle bucketFront ->
  indexInRange (Slot r) w i ->
  isDownRight keyCode || isUpLeft keyCode = true ->
  exists w' : World,
    ringKeydown r keyCode w = Returned tt w' /\
    session (Slot r) w' particle bucketFront /\
    indexInRange (Slot r) w'
      ((i + arrowDelta (Slot r) keyCode) mod optionCount (Slot r) w) /\
    optionCount (Slot r) w' = optionCount (Slot r) w.
Proof.
  intros (Hp & Ho & Hsel & Hrest) (Hi & Hrange & Hlen & j & Hprev) Hkey.
  simpl in Hp, Ho, Hi, Hrange.
  pose proof (ringArrowIndex_in_range keyCode (ring r w) i Hi Hrange) as Hnew.
  change (arrowDelta (Slot InnerRing) keyCode)
    with (arrowDelta (Slot r) keyCode) in Hnew.
  set (i' := ((i + arrowDelta (Slot r) keyCode)
              mod Z.of_nat (List.length
                              (Ring.electronPlacementNodes (ring r w))))%Z)
    in *.
  assert (0 <= i' < Z.of_nat (List.length
                                (Ring.electronPlacementNodes (ring r w))))%Z
    as Hrange' by (apply Z.mod_pos_bound; lia).
  destruct (index_in_range
              (setVisibleAt j true (Ring.electronPlacementNodes (ring r w)))
              i') as [node Hnode];
    [ now rewrite setVisibleAt_length | ].
  destruct (index_in_range (Ring.electronShellPositions (ring r w)) i')
    as [position Hposition]; [ now rewrite Hlen | ].
  unfold ringKeydown, bind, get. rewrite Hsel, Hp, Ho, Hkey.
  unfold modifyRing, modifyPage, focusNode, updateParticle, modify.
  rewrite Hprev.
  destruct w as [v inner outer pg];
    destruct r; cbn -[ringArrowIndex js_index setVisibleAt] in *;
    rewrite Hnew; cbn -[ringArrowIndex js_index setVisibleAt];
    rewrite Hnode; cbn -[ringArrowIndex js_index setVisibleAt];
    rewrite Hposition; cbn -[ringArrowIndex js_index setVisibleAt];
    eexists; (split; [ reflexivity | ]);
    (split;
     [ unfold session; cbn; repeat split; try assumption; apply Hrest | ]);
    (split;
     [ unfold indexInRange; cbn -[setVisibleAt];
       rewrite !setVisibleAt_length;
       repeat split; try assumption; try exact (proj1 Hrange');
       try exact (proj2 Hrange'); eexists; reflexivity
     | cbn -[setVisibleAt]; now rewrite !setVisibleAt_length ]).
Qed.

Lemma press_once (l : Level) (w : World) (particle : ParticleRef)
    (bucketFront : BucketFrontRef) (keyCode : KeyCode) (i : Z) :
  session l w particle bucketFront ->
  indexInRange l w i ->
  isDownRight keyCode || isUpLeft keyCode = true ->
  exists w' : World,
    keydown l keyCode w = Returned tt w' /\
    session l w' particle bucketFront /\
    indexInRange l w' ((i + arrowDelta l keyCode) mod optionCount l w) /\
    optionCount l w' = optionCount l w.
Proof.
  intros Hs Hi Hkey. destruct l as [ | r ].
  - destruct (viewKeydown_arrow w particle bucketFront keyCode i Hs Hi Hkey)
      as (w' & Hrun & Hs' & Hi').
    exists w'. split; [ assumption | ]. split; [ assumption | ].
    split; [ assumption | reflexivity ].
  - now apply ringKeydown_arrow.
Qed.

Lemma presses_index (l : Level) (particle : ParticleRef)
    (bucketFront : BucketFrontRef) (keyCode : KeyCode) (n : nat) :
  isDownRight keyCode || isUpLeft keyCode = true ->
  forall (w : World) (i : Z),
    session l w particle bucketFront ->
    indexInRange l w i ->
    exists w' : World,
      presses l keyCode n w = Returned tt w' /\
      session l w' particle bucketFront /\
      indexInRange l w'
        ((i + Z.of_nat n * arrowDelta l keyCode) mod optionCount l w) /\
      optionCount l w' = optionCount l w.
Proof.
  intros Hkey. induction n as [ | n IH ]; intros w i Hs Hi.
  - exists w. split; [ reflexivity | ]. split; [ assumption | ].
    split; [ | reflexivity ].
    replace (i + Z.of_nat 0 * arrowDelta l keyCode)%Z with i by lia.
    rewrite Z.mod_small; [ assumption | ].
    destruct Hi as (_ & Hrange & _). exact Hrange.
  - destruct (press_once l w particle bucketFront keyCode i Hs Hi Hkey)
      as (w1 & Hrun1 & Hs1 & Hi1 & Hcount1).
    destruct (IH w1 _ Hs1 Hi1) as (w' & Hrun & Hs' & Hi' & Hcount).
    exists w'. split.
    + change (presses l keyCode (S n))
        with (bind (keydown l keyCode) (fun _ => presses l keyCode n)).
      unfold bind. now rewrite Hrun1.
    + split; [ assumption | ]. split; [ | congruence ].
      rewrite Hcount1 in Hi'.
      rewrite Z.add_mod_idemp_l in Hi'
        by (destruct Hi as (_ & Hrange & _); lia).
      replace (i + Z.of_nat (S n) * arrowDelta l keyCode)%Z
        with (i + arrowDelta l keyCode + Z.of_nat n * arrowDelta l keyCode)%Z
        by lia.
      exact Hi'.
Qed.

(** C7. In a session with the index of its level in range, an arrow key
    pressed any number of times in a row leaves an index that is the true
    modulo of the count (never negative, below the number of options); and
    after as many presses as there are options, three at the top level and
    the number of slots on a ring, the index is back where it was. *)
Theorem arrow_key_cycle (l : Level) (w : World) (particle : ParticleRef)
    (bucketFront : BucketFrontRef) (keyCode : KeyCode) (i : Z) :
  session l w particle bucketFront ->
  indexInRange l w i ->
  isDownRight keyCode || isUpLeft keyCode = true ->
  optionCount Top w = 3%Z /\
  (forall j : nat,
     exists (w' : World) (m : Z),
       presses l keyCode j w = Returned tt w' /\
       levelIndex l w' = Int m /\
       (0 <= m < optionCount l w)%Z /\
       m = ((i + Z.of_nat j * arrowDelta l keyCode) mod optionCount l w)%Z) /\
  (exists w' : World,
     presses l keyCode (Z.to_nat (optionCount l w)) w = Returned tt w' /\
     levelIndex l w' = Int i).
Proof.
  intros Hs Hi Hkey. split; [ reflexivity | ].
  assert (0 <= i < optionCount l w)%Z as Hrange
    by (destruct Hi as (_ & Hrange & _); exact Hrange).
  split.
  - intros j.
    destruct (presses_index l particle bucketFront keyCode j Hkey w i Hs Hi)
      as (w' & Hrun & _ & (Hidx & Hr & _) & Hcount).
    exists w', ((i + Z.of_nat j * arrowDelta l keyCode) mod optionCount l w)%Z.
    rewrite Hcount in Hr. repeat split; try assumption; lia.
  - destruct (presses_index l particle bucketFront keyCode
                (Z.to_nat (optionCount l w)) Hkey w i Hs Hi)
      as (w' & Hrun & _ & (Hidx & _) & _).
    exists w'. split; [ assumption | ].
    rewrite Hidx. f_equal.
    rewrite Z2Nat.id by lia.
    rewrite Z.mul_comm, Z.mod_add by lia.
    apply Z.mod_small. assumption.
Qed.

(** One arrow key at each level. In a session with the index of its level
    in range, an arrow key moves the index by one, modulo the number of
    options: at the top level down and right add one and up and left take
    one away; on a ring it is the reverse. *)
Lemma arrow_keys_by_level (l : Level) (w : World) (particle : ParticleRef)
    (bucketFront : BucketFrontRef) (keyCode : KeyCode) (i : Z) :
  session l w particle bucketFront ->
  indexInRange l w i ->
  isDownRight keyCode || isUpLeft keyCode = true ->
  exists w' : World,
    keydown l keyCode w = Returned tt w' /\
    levelIndex l w' =
    Int ((i + match l with
              | Top => if isDownRight keyCode then 1 else -1
              | Slot _ => if isDownRight keyCode then -1 else 1
              end) mod optionCount l w).
Proof.
  intros Hs Hi Hkey.
  destruct (press_once l w particle bucketFront keyCode i Hs Hi Hkey)
    as (w' & Hrun & _ & (Hidx & _) & _).
  exists w'. split; [ assumption | ]. rewrite Hidx.
  destruct l; destruct keyCode; try discriminate Hkey; reflexivity.
Qed.

Lemma topSessionWorld_index : indexInRange Top topSessionWorld 0.
Proof. repeat split; simpl; lia. Qed.

Lemma slotSessionWorld_index :
  indexInRange (Slot OuterRing) slotSessionWorld 0.
Proof.
  split; [ reflexivity | ]. split; [ simpl; lia | ].
  split; [ reflexivity | ]. now exists O.
Qed.

Lemma arrow_key_cycle_witness :
  exists w' : World,
    presses (Slot OuterRing) KEY_LEFT_ARROW 4 slotSessionWorld =
      Returned tt w' /\
    levelIndex (Slot OuterRing) w' = Int 0.
Proof.
  destruct (arrow_key_cycle (Slot OuterRing) slotSessionWorld 1%nat 1%nat
              KEY_LEFT_ARROW 0 slotSessionWorld_session
              slotSessionWorld_index eq_refl)
    as (_ & _ & Hcycle).
  exact Hcycle.
Defined.

(** C4. The two listeners do not follow one convention. The view's
    listener adds one on down and right and takes one away on up and left;
    the ring's listener tests the same two classes of key the other way
    round. From index 0 at both levels, the down arrow takes the view to
    index 1, one up, and the outer ring, of four slots, to index 3, one
    down; the up arrow takes the view to index 2, one down, and the ring
    to index 1, one up. *)
Lemma down_arrow_direction_differs :
  levelIndex Top topSessionWorld = Int 0 /\
  levelIndex (Slot OuterRing) slotSessionWorld = Int 0 /\
  optionCount Top topSessionWorld = 3%Z /\
  optionCount (Slot OuterRing) slotSessionWorld = 4%Z /\
  (exists w' : World,
     keydown Top KEY_DOWN_ARROW topSessionWorld = Returned tt w' /\
     levelIndex Top w' = Int 1) /\
  (exists w' : World,
     keydown (Slot OuterRing) KEY_DOWN_ARROW slotSessionWorld =
       Returned tt w' /\
     levelIndex (Slot OuterRing) w' = Int 3) /\
  (exists w' : World,
     keydown Top KEY_UP_ARROW topSessionWorld = Returned tt w' /\
     levelIndex Top w' = Int 2) /\
  (exists w' : World,
     keydown (Slot OuterRing) KEY_UP_ARROW slotSessionWorld =
       Returned tt w' /\
     levelIndex (Slot OuterRing) w' = Int 1).
Proof.
  split; [ reflexivity | ]. split; [ reflexivity | ].
  split; [ reflexivity | ]. split; [ reflexivity | ].
  split; [ | split; [ | split ] ].
  - exists (worldOf (keydown Top KEY_DOWN_ARROW topSessionWorld)).
    run_example. split; reflexivity.
  - exists (worldOf
              (keydown (Slot OuterRing) KEY_DOWN_ARROW slotSessionWorld)).
    run_example. split; reflexivity.
  - exists (worldOf (keydown Top KEY_UP_ARROW topSessionWorld)).
    run_example. split; reflexivity.
  - exists (worldOf
              (keydown (Slot OuterRing) KEY_UP_ARROW slotSessionWorld)).
    run_example. split; reflexivity.
Qed.

(** * Further properties of the motion controller *)

Section StepEdges.

Import Vector2.





(** X5. After [moveImmediatelyToDestination] the particle is at rest: any
    number of steps with [velocity * dt] not negative leave it as it is. *)
Theorem steps_after_teleport (n : nat) (p : Particle) (dt : R) :
  0 <= velocityProperty p * dt ->
  steps n dt (moveImmediatelyToDestination p) =
  moveImmediatelyToDestination p.
Proof.
  intros Hs. induction n as [ | n IH ]; [ reflexivity | ].
  change (steps (S n) dt (moveImmediatelyToDestination p))
    with (steps n dt (step dt (moveImmediatelyToDestination p))).
  rewrite step_at_destination; [ exact IH | exact Hs | reflexivity ].
Qed.

Lemma steps_after_teleport_witness :
  steps 7 (1 / 100) (moveImmediatelyToDestination travellingProton) =
  moveImmediatelyToDestination travellingProton.
Proof.
  apply (steps_after_teleport 7 travellingProton (1 / 100)).
  simpl. unfold DEFAULT_PARTICLE_VELOCITY. lra.
Defined.

End StepEdges.

Section StepEdgesOnDoubles.

Import Binary64.

(** X3. [step] does not look at the sign of [dt]: on doubles, when
    [dt * velocity] is below zero and the distance computed is a number, a
    particle that is not user controlled takes the moving branch whatever
    the distance is. It never snaps and never rests, also when it is at
    its destination. *)
Theorem step_negative_dt_moves (M : Math) (p : Particle) (dt : float) :
  userControlledProperty p = false ->
  (dt * velocityProperty p <? 0)%float = true ->
  is_nan (Vector2.distance (positionProperty p) (destinationProperty p)) =
    false ->
  let position := positionProperty p in
  let destination := destinationProperty p in
  step M dt p =
    set_positionProperty
      (Vector2.plus position
         (Vector2.createPolar M (velocityProperty p * dt)
            (atan2 M (Vector2.y destination - Vector2.y position)
                     (Vector2.x destination - Vector2.x position)))) p.
Proof.
  intros Hu Hs Hn position destination. unfold step.
  rewrite Hu. cbn [negb].
  unfold Vector2.distance in Hn |- *.
  now rewrite (negative_below_sqrt _ _ Hs Hn).
Qed.

Lemma step_negative_dt_moves_witness :
  positionProperty restingProton = destinationProperty restingProton /\
  positionProperty (step seriesMath (-0.015625) restingProton) =
    Vector2.mk (-0.125) 4.
Proof.
  split; [ reflexivity | ].
  rewrite (step_negative_dt_moves seriesMath restingProton (-0.015625));
    reflexivity.
Defined.

End StepEdgesOnDoubles.

(** * Further properties of the keyboard placement *)

(** X6. After an arrow key in a session at the top level, the option at
    the new index has the focus and is the previously focused node, and the
    destination of the particle is the hover location that
    [getCurrentParticleHoverLocation] returns. *)
Theorem arrow_destination_is_hover (w : World) (particle : ParticleRef)
    (bucketFront : BucketFrontRef) (keyCode : KeyCode) (i : Z) :
  session Top w particle bucketFront ->
  indexInRange Top w i ->
  isDownRight keyCode || isUpLeft keyCode = true ->
  exists (w' : World) (option : OptionNode),
    viewKeydown keyCode w = Returned tt w' /\
    index shellNucluesOptions (View.currentOptionIndex (view w')) =
      Some option /\
    Page.focus (page w') = Some (OptionNodeRef option) /\
    View.previouslyFocusedNode (view w') = option /\
    getCurrentParticleHoverLocation w' =
      Returned (destinationProperty (Page.particles (page w') particle)) w'.
Proof.
  intros (Hp & Ho & Hsel & Hrest) (Hi & Hrange & _) Hkey.
  simpl in Hp, Ho, Hi, Hrange. injection Hi as Hi.
  assert (i = 0 \/ i = 1 \/ i = 2)%Z as Hcases by lia.
  destruct Hcases as [ -> | [ -> | -> ] ];
    destruct keyCode; try discriminate Hkey;
    run_listener; rewrite Hsel; cbn;
    unfold viewArrowIndex; cbn; rewrite Hi; cbn; rewrite Hp; cbn;
    do 2 eexists; (split; [ reflexivity | ]); cbn;
    (split; [ reflexivity | ]); (split; [ reflexivity | ]);
    (split; [ reflexivity | ]);
    unfold getCurrentParticleHoverLocation, bind, get, deref, ret; cbn;
    rewrite storeParticle_same; reflexivity.
Qed.

Lemma arrow_destination_is_hover_witness :
  exists (w' : World) (option : OptionNode),
    viewKeydown KEY_DOWN_ARROW topSessionWorld = Returned tt w' /\
    Page.focus (page w') = Some (OptionNodeRef option) /\
    getCurrentParticleHoverLocation w' =
      Returned (destinationProperty (Page.particles (page w') 1%nat)) w'.
Proof.
  destruct (arrow_destination_is_hover topSessionWorld 1%nat 1%nat
              KEY_DOWN_ARROW 0 topSessionWorld_session
              topSessionWorld_index eq_refl)
    as (w' & option & Hrun & _ & Hfocus & _ & Hhover).
  exists w', option. repeat split; assumption.
Defined.

(** X7. The view goes on selecting after a session has ended at the top
    level, with no particle left to move: the next arrow key changes the
    index, moves the focus to the option there, and then throws a
    TypeError; the previously focused node and the particles stay as they
    were. *)
Theorem arrow_after_session_end_throws (w : World) (particle : ParticleRef)
    (bucketFront : BucketFrontRef) (endKey arrowKey : KeyCode) (i : Z) :
  session Top w particle bucketFront ->
  indexInRange Top w i ->
  endsSession Top endKey w = true ->
  isDownRight arrowKey || isUpLeft arrowKey = true ->
  exists (w1 w2 : World) (e : JSError) (option : OptionNode),
    viewKeydown endKey w = Returned tt w1 /\
    viewKeydown arrowKey w1 = Threw e w2 /\
    View.currentOptionIndex (view w2) =
      ((i + arrowDelta Top arrowKey) mod 3)%Z /\
    index shellNucluesOptions (View.currentOptionIndex (view w2)) =
      Some option /\
    Page.focus (page w2) = Some (OptionNodeRef option) /\
    View.previouslyFocusedNode (view w2) = View.previouslyFocusedNode (view w) /\
    Page.particles (page w2) = Page.particles (page w1).
Proof.
  intros (Hp & Ho & Hsel & Hrest) (Hi & Hrange & _) Hend Hkey.
  simpl in Hp, Ho, Hi, Hrange, Hend. injection Hi as Hi.
  apply andb_prop in Hend. destruct Hend as [Hend Hchoice].
  assert (i = 0 \/ i = 1 \/ i = 2)%Z as Hcases by lia.
  destruct Hcases as [ -> | [ -> | -> ] ];
    rewrite Hi in Hchoice;
    destruct endKey; try discriminate Hend; try discriminate Hchoice;
    destruct arrowKey; try discriminate Hkey;
    run_listener; rewrite Hsel, Hp, Ho, Hi; cbn;
    destruct (Page.particleCount (page w) =? 0)%Z; cbn;
    do 4 eexists; (split; [ reflexivity | ]); cbn;
    rewrite Hsel; cbn; unfold viewArrowIndex; cbn; rewrite Hi; cbn;
    repeat split.
Qed.

Lemma arrow_after_session_end_throws_witness :
  exists (w1 w2 : World) (e : JSError),
    viewKeydown KEY_ESCAPE topSessionWorld = Returned tt w1 /\
    viewKeydown KEY_DOWN_ARROW w1 = Threw e w2 /\
    View.currentOptionIndex (view w2) = 1%Z.
Proof.
  destruct (arrow_after_session_end_throws topSessionWorld 1%nat 1%nat
              KEY_ESCAPE KEY_DOWN_ARROW 0 topSessionWorld_session
              topSessionWorld_index eq_refl eq_refl)
    as (w1 & w2 & e & option & Hend & Hthrow & Hidx & _).
  exists w1, w2, e. repeat split; assumption.
Defined.

(** ** Entering a ring *)

Lemma nth_error_setVisibleAt (i : nat) (b : bool)
    (nodes : list PlacementNode.t) (k : nat) :
  nth_error (setVisibleAt i b nodes) k =
  option_map
    (fun n => if Nat.eqb k i then PlacementNode.set_visible b n else n)
    (nth_error nodes k).
Proof.
  revert i k. induction nodes as [ | n rest IH ]; intros i k.
  - destruct i, k; reflexivity.
  - destruct i, k; simpl; try reflexivity.
    + now destruct (nth_error rest k).
    + apply IH.
Qed.

Lemma setVisibleAt_focusable (i : nat) (b : bool)
    (nodes : list PlacementNode.t) :
  map PlacementNode.focusable (setVisibleAt i b nodes) =
  map PlacementNode.focusable nodes.
Proof.
  revert i. induction nodes as [ | n rest IH ]; intros [ | i ]; simpl;
    try reflexivity.
  now rewrite IH.
Qed.

Lemma onlyHidden_revealed (j : nat) (nodes : list PlacementNode.t) :
  onlyHidden j
    (setVisibleAt j false
       (map (fun _ => PlacementNode.mk true false true) nodes)).
Proof.
  intros k n. rewrite nth_error_setVisibleAt, nth_error_map.
  destruct (nth_error nodes k); simpl; [ | discriminate ].
  intros [= <-]. now destruct (Nat.eqb k j).
Qed.

Lemma onlyHidden_moved (j i : nat) (nodes : list PlacementNode.t) :
  onlyHidden j nodes ->
  onlyHidden i (setVisibleAt i false (setVisibleAt j true nodes)).
Proof.
  intros H k n. rewrite !nth_error_setVisibleAt.
  destruct (nth_error nodes k) as [m | ] eqn:E; simpl; [ | discriminate ].
  intros [= <-]. specialize (H k m E).
  destruct (Nat.eqb k i), (Nat.eqb k j); simpl in *; congruence.
Qed.

Lemma revealed_focusable (j : nat) (b : bool)
    (nodes : list PlacementNode.t) :
  Forall (fun n => PlacementNode.focusable n = true)
         (setVisibleAt j b
            (map (fun _ => PlacementNode.mk true false true) nodes)).
Proof.
  assert (forall l : list PlacementNode.t,
            Forall (fun n => PlacementNode.focusable n = true)
                   (map (fun _ => PlacementNode.mk true false true) l))
    as Hall by (induction l; simpl; constructor; auto).
  revert j. induction nodes as [ | n rest IH ]; intros [ | j ]; simpl;
    constructor; auto.
Qed.

Lemma index_ring_option (i : Z) (r : RingId) :
  index shellNucluesOptions i = Some (RingOption r) ->
  (i = 1%Z /\ r = InnerRing) \/ (i = 2%Z /\ r = OuterRing).
Proof.
  unfold index. intros H. destruct (i <? 0)%Z eqn:E; [ discriminate | ].
  destruct (Z.to_nat i) as [ | [ | [ | n ] ] ] eqn:En; simpl in H;
    try discriminate H; try (destruct n; discriminate H);
    injection H as <-; [ left | right ]; split;
    try reflexivity; lia.
Qed.

(** X8. Enter or Space on a ring option, in a session at the top level,
    takes the session to the slots of that ring (a ring that has slots and
    is well formed): the view stops selecting and the ring holds the
    particle and its origin. The ring's index is not reset: the slot at the
    index it had gets the focus and is the one slot hidden, every slot is
    focusable, and the particle's destination is 1.05 times the position of
    that slot. *)
Theorem enter_on_ring_descends (w : World) (particle : ParticleRef)
    (bucketFront : BucketFrontRef) (keyCode : KeyCode) (r : RingId) :
  session Top w particle bucketFront ->
  index shellNucluesOptions (View.currentOptionIndex (view w)) =
    Some (RingOption r) ->
  keyCode_eqb keyCode KEY_ENTER || keyCode_eqb keyCode KEY_SPACE = true ->
  ringWellFormed (ring r w) ->
  Ring.electronPlacementNodes (ring r w) <> [] ->
  exists (w' : World) (i : Z) (position : Vector2),
    viewKeydown keyCode w = Returned tt w' /\
    session (Slot r) w' particle bucketFront /\
    indexInRange (Slot r) w' i /\
    levelIndex (Slot r) w = Int i /\
    js_index (Ring.electronShellPositions (ring r w)) (Int i) =
      Some (Z.to_nat i, position) /\
    destinationProperty (Page.particles (page w') particle) =
      Vector2.times position 1.05 /\
    Page.focus (page w') = Some (PlacementNodeRef r (Z.to_nat i)) /\
    onlyHidden (Z.to_nat i) (Ring.electronPlacementNodes (ring r w')) /\
    Forall (fun n => PlacementNode.focusable n = true)
           (Ring.electronPlacementNodes (ring r w')).
Proof.
  intros (Hp & Ho & Hsel & Hrest) Hopt Hkey (Hlen & Hwf) Hne.
  destruct (Hwf Hne) as (i & Hi & Hrange & Hprev).
  destruct (index_in_range (Ring.electronShellPositions (ring r w)) i)
    as [position Hposition]; [ now rewrite Hlen | ].
  exists (worldOf (viewKeydown keyCode w)), i, position.
  simpl in Hp, Ho.
  assert ((View.currentOptionIndex (view w) =? 0)%Z = false) as Hnz
    by (destruct (index_ring_option _ _ Hopt) as [[E _] | [E _]];
        now rewrite E).
  destruct keyCode; try discriminate Hkey;
    unfold viewKeydown, chooseElectron, bind, get; rewrite Hsel;
    cbn -[index js_index setVisibleAt];
    rewrite Hp, Ho, Hnz, Hopt; cbn -[index js_index setVisibleAt];
    unfold modifyRing, modifyView, modifyPage, updateParticle, focusNode,
      modify, bind, get, deref, ret;
    destruct w as [v inner outer pg]; destruct r;
    cbn -[index js_index setVisibleAt] in *;
    rewrite Hi, Hposition, Hprev; cbn -[index js_index setVisibleAt];
    (split; [ reflexivity | ]);
    (split;
     [ unfold session; cbn; repeat split; try assumption;
       first [ apply (Hrest InnerRing) | apply (Hrest OuterRing) ] | ]);
    (split;
     [ unfold indexInRange; cbn -[setVisibleAt];
       rewrite setVisibleAt_length, length_map;
       repeat split; try eassumption; try apply Hrange;
       eexists; eassumption | ]);
    (split; [ reflexivity | ]); (split; [ reflexivity | ]);
    (split; [ cbn; now rewrite storeParticle_same | ]);
    (split; [ reflexivity | ]);
    (split; [ apply onlyHidden_revealed | apply revealed_focusable ]).
Qed.

Lemma ringWellFormed_new (positions : list Vector2) :
  ringWellFormed (Ring.new positions).
Proof.
  unfold ringWellFormed, Ring.new. simpl. split.
  - now rewrite length_map.
  - intros Hne. exists 0%Z. destruct positions as [ | v rest ].
    + now elim Hne.
    + simpl. repeat split; lia.
Qed.

Lemma enter_on_ring_descends_witness :
  exists (w' : World) (position : Vector2),
    viewKeydown KEY_ENTER
      (worldOf (viewKeydown KEY_DOWN_ARROW topSessionWorld)) =
      Returned tt w' /\
    session (Slot InnerRing) w' 1%nat 1%nat /\
    destinationProperty (Page.particles (page w') 1%nat) =
      Vector2.times position 1.05.
Proof.
  destruct (enter_on_ring_descends
              (worldOf (viewKeydown KEY_DOWN_ARROW topSessionWorld))
              1%nat 1%nat KEY_ENTER InnerRing)
    as (w' & i & position & Hrun & Hs & _ & _ & _ & Hdest & _).
  - run_example. repeat split; destruct r; repeat constructor.
  - reflexivity.
  - reflexivity.
  - apply (ringWellFormed_new (firstn 2 (electronShellPositions exampleAtom))).
  - discriminate.
  - exists w', position. repeat split; try assumption; apply Hs.
Defined.

(** X9. A ring built from an empty list of positions cannot be entered:
    Enter or Space on its option throws a TypeError, and by then the view
    has stopped selecting and the ring holds the particle and is choosing;
    the particles and the focus are as they were, so the particle is still
    user controlled if it was. *)
Theorem enter_on_empty_ring_throws (w : World) (particle : ParticleRef)
    (bucketFront : BucketFrontRef) (keyCode : KeyCode) (r : RingId) :
  session Top w particle bucketFront ->
  index shellNucluesOptions (View.currentOptionIndex (view w)) =
    Some (RingOption r) ->
  keyCode_eqb keyCode KEY_ENTER || keyCode_eqb keyCode KEY_SPACE = true ->
  Ring.electronShellPositions (ring r w) = [] ->
  exists (e : JSError) (w' : World),
    viewKeydown keyCode w = Threw e w' /\
    View.selectingShellNucleusOptions (view w') = false /\
    Ring.choosingElectronPlacement (ring r w') = true /\
    Ring.activeParticle (ring r w') = Some particle /\
    Ring.activeBucketFront (ring r w') = Some bucketFront /\
    Page.particles (page w') = Page.particles (page w) /\
    Page.focus (page w') = Page.focus (page w).
Proof.
  intros (Hp & Ho & Hsel & Hrest) Hopt Hkey Hempty.
  simpl in Hp, Ho.
  assert ((View.currentOptionIndex (view w) =? 0)%Z = false) as Hnz
    by (destruct (index_ring_option _ _ Hopt) as [[E _] | [E _]];
        now rewrite E).
  assert (forall i, js_index (@nil Vector2) i = None) as Hnone.
  { intros [ z | ]; [ | reflexivity ]. unfold js_index, index.
    destruct (z <? 0)%Z; [ reflexivity | ]. now destruct (Z.to_nat z). }
  destruct keyCode; try discriminate Hkey;
    unfold viewKeydown, chooseElectron, bind, get; rewrite Hsel;
    cbn -[index js_index setVisibleAt];
    rewrite Hp, Ho, Hnz, Hopt; cbn -[index js_index setVisibleAt];
    unfold modifyRing, modifyView, modifyPage, updateParticle, focusNode,
      modify, bind, get, deref, ret, throw;
    destruct w as [v inner outer pg]; destruct r;
    cbn -[index js_index setVisibleAt] in *;
    rewrite Hempty, Hnone; do 2 eexists; repeat split.
Qed.

Lemma enter_on_empty_ring_throws_witness :
  let atom := mkAtom 0 85 130 [ Vector2.mk 85 0; Vector2.mk (-85) 0 ] 0%Z in
  let w :=
    runEvents
      [ AccessibleSelect 1%nat 1%nat; ViewKeydown KEY_UP_ARROW ]
      (newWorld atom (fun _ => newParticle "electron" 3)
         exampleBucketEffect) in
  exists (e : JSError) (w' : World),
    viewKeydown KEY_ENTER w = Threw e w' /\
    Ring.activeParticle (ring OuterRing w') = Some 1%nat.
Proof.
  cbv zeta.
  destruct (enter_on_empty_ring_throws
    (runEvents [ AccessibleSelect 1%nat 1%nat; ViewKeydown KEY_UP_ARROW ]
       (newWorld
          (mkAtom 0 85 130 [ Vector2.mk 85 0; Vector2.mk (-85) 0 ] 0%Z)
          (fun _ => newParticle "electron" 3) exampleBucketEffect))
    1%nat 1%nat KEY_ENTER OuterRing)
    as (e & w' & Hrun & _ & _ & Hactive & _).
  - run_example. repeat split; destruct r; repeat constructor.
  - reflexivity.
  - reflexivity.
  - reflexivity.
  - exists e, w'. split; assumption.
Defined.

(** ** Moving along a ring *)

Lemma ringKeydown_arrow_run (r : RingId) (w : World)
    (particle : ParticleRef) (bucketFront : BucketFrontRef)
    (keyCode : KeyCode) (i : Z) (j : nat) :
  Ring.choosingElectronPlacement (ring r w) = true ->
  Ring.activeParticle (ring r w) = Some particle ->
  Ring.activeBucketFront (ring r w) = Some bucketFront ->
  Ring.currentOptionIndex (ring r w) = Int i ->
  (0 <= i < optionCount (Slot r) w)%Z ->
  List.length (Ring.electronShellPositions (ring r w)) =
    List.length (Ring.electronPlacementNodes (ring r w)) ->
  Ring.previouslyFocusedElectron (ring r w) = Some j ->
  isDownRight keyCode || isUpLeft keyCode = true ->
  let i' := ((i + arrowDelta (Slot r) keyCode) mod optionCount (Slot r) w)%Z in
  exists (w' : World) (position : Vector2),
    ringKeydown r keyCode w = Returned tt w' /\
    js_index (Ring.electronShellPositions (ring r w)) (Int i') =
      Some (Z.to_nat i', position) /\
    Page.focus (page w') = Some (PlacementNodeRef r (Z.to_nat i')) /\
    Ring.previouslyFocusedElectron (ring r w') = Some (Z.to_nat i') /\
    destinationProperty (Page.particles (page w') particle) =
      Vector2.times position 1.05 /\
    Ring.electronPlacementNodes (ring r w') =
      setVisibleAt (Z.to_nat i') false
        (setVisibleAt j true (Ring.electronPlacementNodes (ring r w))) /\
    Ring.electronShellPositions (ring r w') =
      Ring.electronShellPositions (ring r w) /\
    levelIndex (Slot r) w' = Int i'.
Proof.
  intros Hsel Hp Ho Hi Hrange Hlen Hprev Hkey.
  simpl in Hrange.
  pose proof (ringArrowIndex_in_range keyCode (ring r w) i Hi Hrange) as Hnew.
  change (arrowDelta (Slot InnerRing) keyCode)
    with (arrowDelta (Slot r) keyCode) in Hnew.
  cbv zeta. unfold optionCount.
  set (i' := ((i + arrowDelta (Slot r) keyCode)
              mod Z.of_nat (List.length
                              (Ring.electronPlacementNodes (ring r w))))%Z)
    in *.
  assert (0 <= i' < Z.of_nat (List.length
                                (Ring.electronPlacementNodes (ring r w))))%Z
    as Hrange' by (apply Z.mod_pos_bound; lia).
  destruct (index_in_range
              (setVisibleAt j true (Ring.electronPlacementNodes (ring r w)))
              i') as [node Hnode];
    [ now rewrite setVisibleAt_length | ].
  destruct (index_in_range (Ring.electronShellPositions (ring r w)) i')
    as [position Hposition]; [ now rewrite Hlen | ].
  exists (worldOf (ringKeydown r keyCode w)), position.
  unfold ringKeydown, bind, get. rewrite Hsel, Hp, Ho, Hkey.
  unfold modifyRing, modifyPage, focusNode, updateParticle, modify.
  rewrite Hprev.
  destruct w as [v inner outer pg];
    destruct r; cbn -[ringArrowIndex js_index setVisibleAt] in *;
    rewrite Hnew; cbn -[ringArrowIndex js_index setVisibleAt];
    rewrite Hnode; cbn -[ringArrowIndex js_index setVisibleAt];
    rewrite Hposition; cbn -[ringArrowIndex js_index setVisibleAt];
    rewrite storeParticle_same; repeat split.
Qed.

Lemma ringKeydown_arrow_effect (r : RingId) (w : World)
    (particle : ParticleRef) (bucketFront : BucketFrontRef)
    (keyCode : KeyCode) (i : Z) (j : nat) :
  session (Slot r) w particle bucketFront ->
  indexInRange (Slot r) w i ->
  Ring.previouslyFocusedElectron (ring r w) = Some j ->
  isDownRight keyCode || isUpLeft keyCode = true ->
  let i' := ((i + arrowDelta (Slot r) keyCode) mod optionCount (Slot r) w)%Z in
  exists (w' : World) (position : Vector2),
    ringKeydown r keyCode w = Returned tt w' /\
    js_index (Ring.electronShellPositions (ring r w)) (Int i') =
      Some (Z.to_nat i', position) /\
    Page.focus (page w') = Some (PlacementNodeRef r (Z.to_nat i')) /\
    Ring.previouslyFocusedElectron (ring r w') = Some (Z.to_nat i') /\
    destinationProperty (Page.particles (page w') particle) =
      Vector2.times position 1.05 /\
    Ring.electronPlacementNodes (ring r w') =
      setVisibleAt (Z.to_nat i') false
        (setVisibleAt j true (Ring.electronPlacementNodes (ring r w))) /\
    Ring.electronShellPositions (ring r w') =
      Ring.electronShellPositions (ring r w) /\
    levelIndex (Slot r) w' = Int i'.
Proof.
  intros (Hp & Ho & Hsel & _) (Hi & Hrange & Hlen & _) Hprev Hkey.
  now apply (ringKeydown_arrow_run r w particle bucketFront keyCode i j).
Qed.

(** X10. On a ring, in a session with the index in range, the marker of
    the focused slot is the only one hidden, and an arrow key keeps it so:
    if before the key every slot but the previously focused one is visible,
    then after it every slot but the newly focused one is, and no slot has
    been added or removed. *)
Theorem ring_arrow_keeps_one_hidden (r : RingId) (w : World)
    (particle : ParticleRef) (bucketFront : BucketFrontRef)
    (keyCode : KeyCode) (i : Z) (j : nat) :
  session (Slot r) w particle bucketFront ->
  indexInRange (Slot r) w i ->
  Ring.previouslyFocusedElectron (ring r w) = Some j ->
  onlyHidden j (Ring.electronPlacementNodes (ring r w)) ->
  isDownRight keyCode || isUpLeft keyCode = true ->
  exists (w' : World) (j' : nat),
    ringKeydown r keyCode w = Returned tt w' /\
    Ring.previouslyFocusedElectron (ring r w') = Some j' /\
    onlyHidden j' (Ring.electronPlacementNodes (ring r w')) /\
    List.length (Ring.electronPlacementNodes (ring r w')) =
      List.length (Ring.electronPlacementNodes (ring r w)).
Proof.
  intros Hs Hi Hprev Hhidden Hkey.
  destruct (ringKeydown_arrow_effect r w particle bucketFront keyCode i j
              Hs Hi Hprev Hkey)
    as (w' & position & Hrun & _ & _ & Hprev' & _ & Hnodes & _).
  exists w', (Z.to_nat ((i + arrowDelta (Slot r) keyCode)
                        mod optionCount (Slot r) w)).
  split; [ assumption | ]. split; [ assumption | ].
  rewrite Hnodes. split.
  - now apply onlyHidden_moved.
  - now rewrite !setVisibleAt_length.
Qed.

(** X11. On a ring, in a session with the index in range, an arrow key
    gives the focus to the slot at the new index and sends the particle
    towards 1.05 times the position of that slot. *)
Theorem ring_arrow_moves_particle (r : RingId) (w : World)
    (particle : ParticleRef) (bucketFront : BucketFrontRef)
    (keyCode : KeyCode) (i : Z) :
  session (Slot r) w particle bucketFront ->
  indexInRange (Slot r) w i ->
  isDownRight keyCode || isUpLeft keyCode = true ->
  exists (w' : World) (i' : Z) (position : Vector2),
    ringKeydown r keyCode w = Returned tt w' /\
    levelIndex (Slot r) w' = Int i' /\
    js_index (Ring.electronShellPositions (ring r w')) (Int i') =
      Some (Z.to_nat i', position) /\
    Page.focus (page w') = Some (PlacementNodeRef r (Z.to_nat i')) /\
    destinationProperty (Page.particles (page w') particle) =
      Vector2.times position 1.05.
Proof.
  intros Hs Hi Hkey.
  pose proof Hi as Hin.
  destruct Hi as (Hi & Hrange & Hlen & j & Hprev).
  destruct (ringKeydown_arrow_effect r w particle bucketFront keyCode i j
              Hs Hin Hprev Hkey)
    as (w' & position & Hrun & Hpos & Hfocus & _ & Hdest & _ & Hsame & Hidx).
  exists w', ((i + arrowDelta (Slot r) keyCode) mod optionCount (Slot r) w)%Z,
    position.
  rewrite Hsame. repeat split; assumption.
Qed.

Lemma slotSessionWorld_onlyHidden :
  onlyHidden 0 (Ring.electronPlacementNodes (ring OuterRing slotSessionWorld)).
Proof.
  intros k n. destruct k as [ | [ | [ | [ | k ] ] ] ]; simpl;
    try (intros [= <-]; reflexivity).
  destruct k; discriminate.
Qed.

Lemma ring_arrow_keeps_one_hidden_witness :
  exists (w' : World) (j' : nat),
    ringKeydown OuterRing KEY_UP_ARROW slotSessionWorld = Returned tt w' /\
    onlyHidden j' (Ring.electronPlacementNodes (ring OuterRing w')).
Proof.
  destruct (ring_arrow_keeps_one_hidden OuterRing slotSessionWorld
              1%nat 1%nat KEY_UP_ARROW 0 0 slotSessionWorld_session
              slotSessionWorld_index eq_refl slotSessionWorld_onlyHidden
              eq_refl)
    as (w' & j' & Hrun & _ & Hhidden & _).
  exists w', j'. split; assumption.
Defined.

Lemma ring_arrow_moves_particle_witness :
  exists (w' : World) (position : Vector2),
    ringKeydown OuterRing KEY_UP_ARROW slotSessionWorld = Returned tt w' /\
    destinationProperty (Page.particles (page w') 1%nat) =
      Vector2.times position 1.05.
Proof.
  destruct (ring_arrow_moves_particle OuterRing slotSessionWorld
              1%nat 1%nat KEY_UP_ARROW 0 slotSessionWorld_session
              slotSessionWorld_index eq_refl)
    as (w' & i' & position & Hrun & _ & _ & _ & Hdest).
  exists w', position. split; assumption.
Defined.

(** ** Callbacks and whole placements *)

(** X12. Two refocus callbacks do not both succeed. When a session ends
    with Escape, a new selection starts and also ends with Escape before
    any timeout has fired, two callbacks are pending: the first focuses
    the bucket front of the second selection and clears the view's
    reference, and the second then throws a TypeError, leaving the focus
    where the first put it. *)
Theorem second_refocus_throws (w : World) (particle particle2 : ParticleRef)
    (bucketFront bucketFront2 : BucketFrontRef) :
  session Top w particle bucketFront ->
  Page.timers (page w) = [] ->
  exists (w1 w2 w3 : World) (e : JSError),
    (viewKeydown KEY_ESCAPE ;; accessibleSelect particle2 bucketFront2 ;;
     viewKeydown KEY_ESCAPE) w = Returned tt w1 /\
    Page.timers (page w1) = [ RefocusFromShellView; RefocusFromShellView ] /\
    fireTimer w1 = Returned tt w2 /\
    Page.focus (page w2) = Some (BucketFrontNodeRef bucketFront2) /\
    fireTimer w2 = Threw e w3 /\
    Page.focus (page w3) = Some (BucketFrontNodeRef bucketFront2) /\
    Page.timers (page w3) = [].
Proof.
  intros (Hp & Ho & Hsel & Hrest) Htimers. simpl in Hp, Ho.
  destruct (Page.particleCount (page w) =? 0)%Z eqn:Hcount;
    do 4 eexists;
    (split;
     [ run_listener; rewrite Hsel, Hp, Ho, !orb_true_r; cbn;
       rewrite ?Hcount, ?orb_true_r; cbn;
       rewrite ?Hcount, ?orb_true_r; cbn; reflexivity | ]);
    cbn; rewrite Htimers; cbn;
    (split; [ reflexivity | ]);
    (split; [ run_listener; rewrite ?Htimers; cbn; reflexivity | ]);
    (split; [ reflexivity | ]);
    (split; [ run_listener; reflexivity | ]);
    split; reflexivity.
Qed.

Lemma second_refocus_throws_witness :
  exists (w1 w2 w3 : World) (e : JSError),
    (viewKeydown KEY_ESCAPE ;; accessibleSelect 2%nat 2%nat ;;
     viewKeydown KEY_ESCAPE) topSessionWorld = Returned tt w1 /\
    fireTimer w1 = Returned tt w2 /\
    fireTimer w2 = Threw e w3.
Proof.
  destruct (second_refocus_throws topSessionWorld 1%nat 2%nat 1%nat 2%nat
              topSessionWorld_session eq_refl)
    as (w1 & w2 & w3 & e & Hrun & _ & Hfire1 & _ & Hfire2 & _).
  exists w1, w2, w3, e. repeat split; assumption.
Defined.

(** X13. A whole placement on the inner ring, from construction: for an
    atom with at least one shell position, selecting a particle, pressing
    the down arrow, Enter and Enter again runs without an error; the
    particle is then no longer user controlled, its destination is 1.05
    times the first shell position, no bucket has been called, one refocus
    of the ring is pending, and when it fires the focus is on the bucket
    front the particle came from. *)
Theorem placement_on_inner_ring (atom : Atom)
    (particles : ParticleRef -> Particle)
    (bucketEffect : BucketFrontRef -> ParticleRef ->
                    (ParticleRef -> Particle) -> (ParticleRef -> Particle))
    (particle : ParticleRef) (bucketFront : BucketFrontRef)
    (position : Vector2) (rest : list Vector2) :
  electronShellPositions atom = position :: rest ->
  exists w' w'' : World,
    (accessibleSelect particle bucketFront ;;
     viewKeydown KEY_DOWN_ARROW ;; viewKeydown KEY_ENTER ;;
     ringKeydown InnerRing KEY_ENTER)
      (newWorld atom particles bucketEffect) = Returned tt w' /\
    userControlledProperty (Page.particles (page w') particle) = false /\
    destinationProperty (Page.particles (page w') particle) =
      Vector2.times position 1.05 /\
    Page.calls (page w') = [] /\
    Page.timers (page w') = [ RefocusFromRing InnerRing ] /\
    idle w' /\
    fireTimer w' = Returned tt w'' /\
    Page.focus (page w'') = Some (BucketFrontNodeRef bucketFront).
Proof.
  intros Hatom.
  unfold newWorld, newElectronShellView. rewrite Hatom.
  do 2 eexists.
  split; [ run_example; reflexivity | ].
  run_example. rewrite !Nat.eqb_refl.
  split; [ reflexivity | ]. split; [ reflexivity | ].
  split; [ reflexivity | ]. split; [ reflexivity | ].
  split; [ split; [ now left | intros r; destruct r; reflexivity ] | ].
  split; reflexivity.
Qed.

Lemma placement_on_inner_ring_witness :
  exists w' : World,
    (accessibleSelect 1%nat 1%nat ;;
     viewKeydown KEY_DOWN_ARROW ;; viewKeydown KEY_ENTER ;;
     ringKeydown InnerRing KEY_ENTER) exampleWorld = Returned tt w' /\
    destinationProperty (Page.particles (page w') 1%nat) =
      Vector2.times (Vector2.mk 85 0) 1.05.
Proof.
  destruct (placement_on_inner_ring exampleAtom
              (fun _ => set_userControlledProperty true
                          (newParticle "electron" 3))
              exampleBucketEffect 1%nat 1%nat (Vector2.mk 85 0)
              [ Vector2.mk (-85) 0; Vector2.mk 130 0; Vector2.mk 0 130;
                Vector2.mk (-130) 0; Vector2.mk 0 (-130) ] eq_refl)
    as (w' & w'' & Hrun & _ & Hdest & _).
  exists w'. split; assumption.
Defined.

(** ** What the listeners keep *)

Section Keeps.

Variable P : World -> Prop.

Lemma keeps_ret {A : Type} (a : A) : keeps P (ret a).
Proof. intros w H. exact H. Qed.

Lemma keeps_throw {A : Type} (e : JSError) : keeps P (@throw A e).
Proof. intros w H. exact H. Qed.

Lemma keeps_get : keeps P get.
Proof. intros w H. exact H. Qed.

Lemma keeps_deref {A : Type} (v : option A) : keeps P (deref v).
Proof. intros w H. destruct v; exact H. Qed.

Lemma keeps_modify (f : World -> World) :
  (forall w, P w -> P (f w)) -> keeps P (modify f).
Proof. intros Hf w H. apply Hf, H. Qed.

Lemma keeps_bind {A B : Type} (m : M A) (k : A -> M B) :
  keeps P m -> (forall a, keeps P (k a)) -> keeps P (bind m k).
Proof.
  intros Hm Hk w H. unfold bind. specialize (Hm w H).
  destruct (m w) as [a w' | e w']; simpl in *.
  - now apply Hk.
  - exact Hm.
Qed.

End Keeps.

Ltac keeps_step :=
  match goal with
  | |- keeps _ (bind _ _) => apply keeps_bind; [ | intros ? ]
  | |- keeps _ (ret _) => apply keeps_ret
  | |- keeps _ (throw _) => apply keeps_throw
  | |- keeps _ get => apply keeps_get
  | |- keeps _ (deref _) => apply keeps_deref
  | |- keeps _ (modify _) => apply keeps_modify
  | |- keeps _ (if ?b then _ else _) => destruct b
  | |- keeps _ (match ?x with _ => _ end) => destruct x
  | |- keeps _ (let _ := _ in _) => cbv zeta
  end.

Ltac keeps_listener :=
  repeat first
    [ progress unfold runEvent, keydown, viewKeydown, ringKeydown,
        accessibleSelect, runTimer, fireTimer, chooseElectron,
        nucleusRadiusChanged, addParticleFirstOpen, setTimeout,
        updateParticle, focusNode, modifyView, modifyRing, modifyPage
    | keeps_step ].

Lemma ring_set_ring_same (r : RingId) (x : Ring.t) (w : World) :
  ring r (set_ring r x w) = x.
Proof. now destruct r. Qed.

Lemma ring_set_ring_other (r : RingId) (x : Ring.t) (w : World) :
  ring (otherRing r) (set_ring r x w) = ring (otherRing r) w.
Proof. now destruct r. Qed.

Lemma view_set_ring (r : RingId) (x : Ring.t) (w : World) :
  view (set_ring r x w) = view w.
Proof. now destruct r. Qed.

Lemma ringKeydown_keeps_frame (r : RingId) (keyCode : KeyCode) (w : World) :
  keeps (ringFrame r w) (ringKeydown r keyCode).
Proof.
  keeps_listener;
    intros w0 (Hv & Ho & Hp & Hl); unfold ringFrame;
    rewrite ?view_set_ring, ?ring_set_ring_other, ?ring_set_ring_same;
    cbn; rewrite ?length_map, ?setVisibleAt_length;
    repeat split; assumption.
Qed.

(** X14. The listener of a ring works on that ring alone: whatever the
    key and the state, and whether it returns or throws, the view and the
    other ring are as they were, the positions of the ring are the same
    and it has as many slots as before. *)
Theorem ringKeydown_frame (r : RingId) (keyCode : KeyCode) (w : World) :
  let w' := worldOf (ringKeydown r keyCode w) in
  view w' = view w /\
  ring (otherRing r) w' = ring (otherRing r) w /\
  Ring.electronShellPositions (ring r w') =
    Ring.electronShellPositions (ring r w) /\
  List.length (Ring.electronPlacementNodes (ring r w')) =
    List.length (Ring.electronPlacementNodes (ring r w)).
Proof.
  apply (ringKeydown_keeps_frame r keyCode w w). repeat split.
Qed.

Ltac key_cases keyCode :=
  destruct keyCode;
  cbn [isTabOrEscape isDownRight isUpLeft isPlaceOrEnd keyCode_eqb
       orb negb andb] in *.

(** X15. Only Tab and Escape send a particle back: for every other key no
    listener calls a bucket, whatever the state and whether the listener
    returns or throws. *)
Theorem no_bucket_call_without_tab_or_escape (l : Level) (keyCode : KeyCode)
    (w : World) :
  isTabOrEscape keyCode = false ->
  Page.calls (page (worldOf (keydown l keyCode w))) = Page.calls (page w).
Proof.
  intros Hkey.
  set (P := fun w' : World => Page.calls (page w') = Page.calls (page w)).
  assert (keeps P (keydown l keyCode)) as Hkeeps.
  { destruct l as [ | r ];
      unfold keydown, viewKeydown, ringKeydown;
      key_cases keyCode; try discriminate Hkey;
      keeps_listener;
      intros w0 H0; unfold P in *;
      rewrite <- H0; try reflexivity;
      match goal with
      | |- context [set_ring ?r _ _] => now destruct r
      end. }
  apply (Hkeeps w). reflexivity.
Qed.

Lemma no_bucket_call_without_tab_or_escape_witness :
  Page.calls (page (worldOf (keydown (Slot OuterRing) KEY_ENTER
                               slotSessionWorld))) =
  Page.calls (page slotSessionWorld).
Proof.
  apply (no_bucket_call_without_tab_or_escape (Slot OuterRing) KEY_ENTER
           slotSessionWorld eq_refl).
Defined.

(** ** Well-formed worlds *)

Lemma ringWellFormed_shape (x y : Ring.t) :
  Ring.electronShellPositions y = Ring.electronShellPositions x ->
  List.length (Ring.electronPlacementNodes y) =
    List.length (Ring.electronPlacementNodes x) ->
  Ring.currentOptionIndex y = Ring.currentOptionIndex x ->
  Ring.previouslyFocusedElectron y = Ring.previouslyFocusedElectron x ->
  ringWellFormed x -> ringWellFormed y.
Proof.
  intros Hp Hl Hi Hj (Hlen & Hwf). split.
  - now rewrite Hp, Hl.
  - intros Hne. rewrite Hl, Hi, Hj. apply Hwf.
    intros Hnil. apply Hne. apply length_zero_iff_nil.
    rewrite Hl, Hnil. reflexivity.
Qed.

Lemma viewArrowIndex_in_range (keyCode : KeyCode) (self : View.t) :
  (0 <= View.currentOptionIndex self < 3)%Z ->
  (0 <= viewArrowIndex keyCode self < 3)%Z.
Proof.
  intros H. unfold viewArrowIndex. simpl List.length.
  destruct (isDownRight keyCode).
  - apply Z.rem_bound_pos_pos; lia.
  - destruct (isUpLeft keyCode); [ | exact H ].
    destruct (View.currentOptionIndex self - 1 <? 0)%Z eqn:E; lia.
Qed.

Ltac sound_side :=
  let w1 := fresh "w" in
  let Hidx := fresh "Hidx" in
  let Hrings := fresh "Hrings" in
  let Hpos := fresh "Hpos" in
  intros w1 [[Hidx Hrings] Hpos];
  repeat match goal with r : RingId |- _ => destruct r end;
  (split;
   [ split;
     [ cbn; try exact Hidx; now apply viewArrowIndex_in_range
     | let r0 := fresh "r" in
       intros r0; specialize (Hrings r0); destruct r0; cbn in *;
       try exact Hrings;
       (eapply ringWellFormed_shape; [ | | | | exact Hrings ]);
       cbn; rewrite ?length_map, ?setVisibleAt_length; reflexivity ]
   | let r0 := fresh "r" in
     intros r0; specialize (Hpos r0); destruct r0; cbn in *; exact Hpos ]).

Lemma accessibleSelect_sound (w0 : World) particle bucketFront :
  keeps (sound w0) (accessibleSelect particle bucketFront).
Proof. keeps_listener; sound_side. Qed.

Lemma fireTimer_sound (w0 : World) : keeps (sound w0) fireTimer.
Proof. keeps_listener; sound_side. Qed.

Lemma nucleusRadiusChanged_sound (w0 : World) (radius : R) :
  keeps (sound w0) (nucleusRadiusChanged radius).
Proof. keeps_listener; sound_side. Qed.

Lemma viewKeydown_sound (w0 : World) (keyCode : KeyCode) :
  keeps (sound w0) (viewKeydown keyCode).
Proof. keeps_listener; sound_side. Qed.

Lemma ringKeydown_disabled (r : RingId) (keyCode : KeyCode) (w : World) :
  (Ring.choosingElectronPlacement (ring r w) = false \/
   Ring.activeParticle (ring r w) = None \/
   Ring.activeBucketFront (ring r w) = None) ->
  ringKeydown r keyCode w = Returned tt w.
Proof.
  intros H. unfold ringKeydown, bind, get.
  destruct (Ring.choosingElectronPlacement (ring r w)),
    (Ring.activeParticle (ring r w)), (Ring.activeBucketFront (ring r w));
    try reflexivity.
  destruct H as [H | [H | H]]; discriminate.
Qed.

Lemma ringKeydown_sound (w0 : World) (r : RingId) (keyCode : KeyCode) :
  keeps (sound w0) (ringKeydown r keyCode).
Proof.
  destruct (isDownRight keyCode || isUpLeft keyCode) eqn:Hkey.
  - intros w [[Hidx Hrings] Hpos].
    destruct (Ring.choosingElectronPlacement (ring r w)) eqn:Hsel;
      [ | rewrite ringKeydown_disabled by auto;
          exact (conj (conj Hidx Hrings) Hpos) ].
    destruct (Ring.activeParticle (ring r w)) as [particle | ] eqn:Hp;
      [ | rewrite ringKeydown_disabled by auto;
          exact (conj (conj Hidx Hrings) Hpos) ].
    destruct (Ring.activeBucketFront (ring r w)) as [bucketFront | ] eqn:Ho;
      [ | rewrite ringKeydown_disabled by auto;
          exact (conj (conj Hidx Hrings) Hpos) ].
    assert (ringFrame r w (worldOf (ringKeydown r keyCode w)))
      as (Hv & Hother & Hsame & Hlength)
      by (apply ringKeydown_keeps_frame; repeat split).
    assert (ringWellFormed (ring r (worldOf (ringKeydown r keyCode w))))
      as Hring.
    { destruct (Hrings r) as (Hlen & Hwf).
      destruct (Ring.electronPlacementNodes (ring r w)) as [ | n rest ] eqn:Hn.
      - split; [ now rewrite Hsame, Hlength, Hlen | ].
        intros Hne. elim Hne. apply length_zero_iff_nil.
        now rewrite Hlength.
      - destruct Hwf as (i & Hi & Hrange & Hprev); [ discriminate | ].
        destruct (ringKeydown_arrow_run r w particle bucketFront keyCode i
                    (Z.to_nat i))
          as (w' & position & Hrun & _ & _ & Hprev' & _ & Hnodes & Hpos'
              & Hidx'); try assumption.
        + unfold optionCount. now rewrite Hn.
        + now rewrite Hn.
        + rewrite Hrun. simpl worldOf. split.
          * now rewrite Hpos', Hnodes, !setVisibleAt_length, Hn.
          * intros _. eexists. split; [ exact Hidx' | ].
            split; [ | exact Hprev' ].
            rewrite Hnodes, !setVisibleAt_length.
            unfold optionCount. apply Z.mod_pos_bound.
            rewrite Hn. simpl List.length. lia. }
    split; [ split | ].
    + now rewrite Hv.
    + intros r0. destruct r, r0; simpl in *;
        first [ exact Hring
              | rewrite Hother;
                first [ exact (Hrings InnerRing) | exact (Hrings OuterRing) ] ].
    + intros r0. destruct r, r0; simpl in *;
        first [ rewrite Hsame | rewrite Hother ];
        first [ exact (Hpos InnerRing) | exact (Hpos OuterRing) ].
  - unfold ringKeydown. rewrite Hkey.
    keeps_listener; sound_side.
Qed.

Lemma runEvent_sound (w0 : World) (e : Event) : keeps (sound w0) (runEvent e).
Proof.
  destruct e; simpl.
  - apply accessibleSelect_sound.
  - apply viewKeydown_sound.
  - apply ringKeydown_sound.
  - apply fireTimer_sound.
  - apply nucleusRadiusChanged_sound.
Qed.

Lemma runEvents_sound (w0 : World) (events : list Event) :
  forall w : World, sound w0 w -> sound w0 (runEvents events w).
Proof.
  induction events as [ | e rest IH ]; intros w H; [ exact H | ].
  simpl. apply IH. now apply runEvent_sound.
Qed.

Lemma newWorld_sound (atom : Atom) particles bucketEffect :
  sound (newWorld atom particles bucketEffect)
        (newWorld atom particles bucketEffect).
Proof.
  split; [ split | reflexivity ].
  - simpl. lia.
  - intros [ | ]; apply ringWellFormed_new.
Qed.

(** X16. Whatever events follow the construction of the view, and whether
    or not their listeners throw, the world stays well formed: the index of
    the view is 0, 1 or 2; each ring has the positions it was built with
    (the first two of the atom on the inner ring, the others on the outer
    one) and one slot for each; and a ring that has slots has its index in
    range and its previously focused slot at that index. *)
Theorem events_keep_wellFormed (atom : Atom)
    (particles : ParticleRef -> Particle)
    (bucketEffect : BucketFrontRef -> ParticleRef ->
                    (ParticleRef -> Particle) -> (ParticleRef -> Particle))
    (events : list Event) :
  let w := runEvents events (newWorld atom particles bucketEffect) in
  wellFormed w /\
  Ring.electronShellPositions (innerRing w) =
    firstn 2 (electronShellPositions atom) /\
  Ring.electronShellPositions (outerRing w) =
    skipn 2 (electronShellPositions atom).
Proof.
  destruct (runEvents_sound _ events _
              (newWorld_sound atom particles bucketEffect))
    as [Hwf Hpos].
  split; [ exact Hwf | ].
  split; [ apply (Hpos InnerRing) | apply (Hpos OuterRing) ].
Qed.

Lemma index_top_in_range (i : Z) :
  (0 <= i < Z.of_nat (List.length shellNucluesOptions))%Z ->
  exists o : OptionNode, index shellNucluesOptions i = Some o.
Proof.
  simpl. intros H.
  assert (i = 0 \/ i = 1 \/ i = 2)%Z as [ -> | [ -> | -> ] ] by lia;
    eexists; reflexivity.
Qed.

(** X17. [getCurrentParticleHoverLocation] never throws on a view that
    has been built and then used: after any events it returns the hover
    location of the option at the view's index, and changes nothing. *)
Theorem getCurrentParticleHoverLocation_returns (atom : Atom)
    (particles : ParticleRef -> Particle)
    (bucketEffect : BucketFrontRef -> ParticleRef ->
                    (ParticleRef -> Particle) -> (ParticleRef -> Particle))
    (events : list Event) :
  let w := runEvents events (newWorld atom particles bucketEffect) in
  exists o : OptionNode,
    index shellNucluesOptions (View.currentOptionIndex (view w)) = Some o /\
    getCurrentParticleHoverLocation w =
      Returned (View.shellNucleusHoverLocations (view w) o) w.
Proof.
  cbv zeta.
  destruct (runEvents_sound _ events _
              (newWorld_sound atom particles bucketEffect))
    as [[Hidx _] _].
  destruct (index_top_in_range _ Hidx) as [o Ho].
  exists o. split; [ exact Ho | ].
  unfold getCurrentParticleHoverLocation, bind, get. now rewrite Ho.
Qed.

(** ** When the listeners throw *)

Lemma ringKeydown_returns (r : RingId) (keyCode : KeyCode) (w : World) :
  ringWellFormed (ring r w) ->
  Ring.electronPlacementNodes (ring r w) <> [] ->
  exists w' : World, ringKeydown r keyCode w = Returned tt w'.
Proof.
  intros (Hlen & Hwf) Hne.
  destruct (Hwf Hne) as (i & Hi & Hrange & Hprev).
  destruct (Ring.choosingElectronPlacement (ring r w)) eqn:Hsel;
    [ | exists w; apply ringKeydown_disabled; auto ].
  destruct (Ring.activeParticle (ring r w)) as [particle | ] eqn:Hp;
    [ | exists w; apply ringKeydown_disabled; auto ].
  destruct (Ring.activeBucketFront (ring r w)) as [bucketFront | ] eqn:Ho;
    [ | exists w; apply ringKeydown_disabled; auto ].
  destruct (isDownRight keyCode || isUpLeft keyCode) eqn:Hkey.
  - destruct (ringKeydown_arrow_run r w particle bucketFront keyCode i
                (Z.to_nat i) Hsel Hp Ho Hi Hrange Hlen Hprev Hkey)
      as (w' & _ & Hrun & _).
    now exists w'.
  - unfold ringKeydown, bind, get. rewrite Hsel, Hp, Ho, Hkey.
    key_cases keyCode; try discriminate Hkey;
      eexists; run_listener; reflexivity.
Qed.

(** X18. The listener of a ring that was built with at least one position
    never throws: after any events that follow the construction of the
    view, every key makes it return. *)
Theorem ring_listener_never_throws (atom : Atom)
    (particles : ParticleRef -> Particle)
    (bucketEffect : BucketFrontRef -> ParticleRef ->
                    (ParticleRef -> Particle) -> (ParticleRef -> Particle))
    (events : list Event) (r : RingId) (keyCode : KeyCode) :
  Ring.electronShellPositions
    (ring r (newWorld atom particles bucketEffect)) <> [] ->
  exists w' : World,
    ringKeydown r keyCode
      (runEvents events (newWorld atom particles bucketEffect)) =
    Returned tt w'.
Proof.
  intros Hne.
  destruct (runEvents_sound _ events _
              (newWorld_sound atom particles bucketEffect))
    as [[_ Hrings] Hpos].
  apply ringKeydown_returns; [ apply Hrings | ].
  intros Hnil. apply Hne. rewrite <- (Hpos r).
  apply length_zero_iff_nil.
  destruct (Hrings r) as (Hlen & _). now rewrite Hlen, Hnil.
Qed.

Lemma ring_listener_never_throws_witness :
  exists w' : World,
    ringKeydown OuterRing KEY_LEFT_ARROW
      (runEvents
         [ AccessibleSelect 1%nat 1%nat; ViewKeydown KEY_UP_ARROW;
           ViewKeydown KEY_SPACE; RingKeydown OuterRing KEY_DOWN_ARROW ]
         exampleWorld) = Returned tt w'.
Proof.
  apply (ring_listener_never_throws exampleAtom
           (fun _ => set_userControlledProperty true
                       (newParticle "electron" 3))
           exampleBucketEffect
           [ AccessibleSelect 1%nat 1%nat; ViewKeydown KEY_UP_ARROW;
             ViewKeydown KEY_SPACE; RingKeydown OuterRing KEY_DOWN_ARROW ]
           OuterRing KEY_LEFT_ARROW).
  discriminate.
Defined.

Lemma viewKeydown_enter_run (w : World) (particle : ParticleRef)
    (bucketFront : BucketFrontRef) (keyCode : KeyCode) (r : RingId) :
  View.selectingShellNucleusOptions (view w) = true ->
  View.currentlyDraggedParticle (view w) = Some particle ->
  View.currentlySelectedBucketFront (view w) = Some bucketFront ->
  index shellNucluesOptions (View.currentOptionIndex (view w)) =
    Some (RingOption r) ->
  keyCode_eqb keyCode KEY_ENTER || keyCode_eqb keyCode KEY_SPACE = true ->
  ringWellFormed (ring r w) ->
  Ring.electronPlacementNodes (ring r w) <> [] ->
  exists w' : World, viewKeydown keyCode w = Returned tt w'.
Proof.
  intros Hsel Hp Ho Hopt Hkey (Hlen & Hwf) Hne.
  destruct (Hwf Hne) as (i & Hi & Hrange & Hprev).
  destruct (index_in_range (Ring.electronShellPositions (ring r w)) i)
    as [position Hposition]; [ now rewrite Hlen | ].
  exists (worldOf (viewKeydown keyCode w)).
  assert ((View.currentOptionIndex (view w) =? 0)%Z = false) as Hnz
    by (destruct (index_ring_option _ _ Hopt) as [[E _] | [E _]];
        now rewrite E).
  destruct keyCode; try discriminate Hkey;
    unfold viewKeydown, chooseElectron, bind, get; rewrite Hsel;
    cbn -[index js_index setVisibleAt];
    rewrite Hp, Ho, Hnz, Hopt; cbn -[index js_index setVisibleAt];
    unfold modifyRing, modifyView, modifyPage, updateParticle, focusNode,
      modify, bind, get, deref, ret;
    destruct w as [v inner outer pg]; destruct r;
    cbn -[index js_index setVisibleAt] in *;
    rewrite Hi, Hposition, Hprev; reflexivity.
Qed.

(** X19. With both rings holding at least one slot, the listener of the
    view throws in one situation only: an arrow key while the view is
    selecting and holds no particle. In every other state of a well-formed
    world, and for every other key, it returns. *)
Theorem viewKeydown_throws_iff (w : World) (keyCode : KeyCode) :
  wellFormed w ->
  (forall r : RingId, Ring.electronPlacementNodes (ring r w) <> []) ->
  ((exists (e : JSError) (w' : World), viewKeydown keyCode w = Threw e w') <->
   (View.selectingShellNucleusOptions (view w) = true /\
    isDownRight keyCode || isUpLeft keyCode = true /\
    View.currentlyDraggedParticle (view w) = None)).
Proof.
  intros [Hidx Hrings] Hne.
  destruct (index_top_in_range _ Hidx) as [o Ho].
  assert (forall k, exists o', index shellNucluesOptions
                                 (viewArrowIndex k (view w)) = Some o')
    as Harrow
    by (intros k; apply index_top_in_range;
        now apply viewArrowIndex_in_range).
  split.
  - intros (e & w' & Hthrow).
    destruct (View.selectingShellNucleusOptions (view w)) eqn:Hsel;
      [ | unfold viewKeydown, bind, get in Hthrow;
          now rewrite Hsel in Hthrow ].
    destruct (isDownRight keyCode || isUpLeft keyCode) eqn:Hkey.
    + destruct (View.currentlyDraggedParticle (view w)) as [p | ] eqn:Hp;
        [ | auto ].
      exfalso. destruct (Harrow keyCode) as [o' Ho'].
      unfold viewKeydown, bind, get in Hthrow. rewrite Hsel, Hkey in Hthrow.
      unfold modifyView, modifyPage, updateParticle, focusNode, modify,
        bind, get, deref, ret in Hthrow.
      cbn -[index viewArrowIndex] in Hthrow.
      rewrite Ho', Hp in Hthrow. discriminate Hthrow.
    + exfalso.
      destruct (isPlaceOrEnd keyCode) eqn:Hend;
        [ | unfold viewKeydown, bind, get in Hthrow;
            now rewrite Hsel, Hkey, Hend in Hthrow ].
      destruct (View.currentlyDraggedParticle (view w)) as [p | ] eqn:Hp;
        [ | unfold viewKeydown, bind, get in Hthrow;
            now rewrite Hsel, Hkey, Hend, Hp in Hthrow ].
      destruct (View.currentlySelectedBucketFront (view w)) as [b | ] eqn:Hb;
        [ | unfold viewKeydown, bind, get in Hthrow;
            now rewrite Hsel, Hkey, Hend, Hp, Hb in Hthrow ].
      destruct ((View.currentOptionIndex (view w) =? 0)%Z
                || isTabOrEscape keyCode) eqn:Hterm.
      * unfold viewKeydown, bind, get in Hthrow.
        rewrite Hsel, Hkey, Hend, Hp, Hb, Hterm in Hthrow.
        unfold modifyView, modifyPage, updateParticle, setTimeout,
          addParticleFirstOpen, modify, bind, ret in Hthrow.
        destruct (isTabOrEscape keyCode),
          (Page.particleCount (page w) =? 0)%Z,
          (negb (keyCode_eqb keyCode KEY_TAB)); discriminate Hthrow.
      * apply orb_false_iff in Hterm. destruct Hterm as [Hnz Hnot].
        destruct o as [ | r ].
        -- unfold index in Ho.
           destruct (View.currentOptionIndex (view w) <? 0)%Z eqn:E;
             [ discriminate | ].
           destruct (Z.to_nat (View.currentOptionIndex (view w)))
             as [ | [ | [ | n ] ] ] eqn:En; simpl in Ho;
             try discriminate Ho; try (destruct n; discriminate Ho).
           apply Z.eqb_neq in Hnz. apply Z.ltb_ge in E. lia.
        -- destruct (viewKeydown_enter_run w p b keyCode r Hsel Hp Hb Ho)
             as [w1 Hrun]; [ | apply Hrings | apply Hne | congruence ].
           destruct keyCode; try discriminate Hend; try discriminate Hnot;
             reflexivity.
  - intros (Hsel & Hkey & Hp).
    destruct (Harrow keyCode) as [o' Ho'].
    unfold viewKeydown, bind, get. rewrite Hsel, Hkey.
    unfold modifyView, modifyPage, updateParticle, focusNode, modify,
      bind, get, deref, ret, throw.
    cbn -[index viewArrowIndex].
    rewrite Ho', Hp. do 2 eexists. reflexivity.
Qed.

Lemma viewKeydown_throws_iff_witness :
  (exists (e : JSError) (w' : World),
     viewKeydown KEY_ENTER slotSessionWorld = Threw e w') <->
  (View.selectingShellNucleusOptions (view slotSessionWorld) = true /\
   isDownRight KEY_ENTER || isUpLeft KEY_ENTER = true /\
   View.currentlyDraggedParticle (view slotSessionWorld) = None).
Proof.
  apply (viewKeydown_throws_iff slotSessionWorld KEY_ENTER).
  - split.
    + assert (View.currentOptionIndex (view slotSessionWorld) = 2%Z) as E
        by reflexivity.
      rewrite E. simpl. lia.
    + intros [ | ]; (split; [ reflexivity | ]); intros _; exists 0%Z;
        (split; [ reflexivity | ]); (split; [ simpl; lia | reflexivity ]).
  - intros [ | ]; discriminate.
Defined.

(** * The earlier revision of the view *)

Section EarlierViewProperties.

Import EarlierView.

Lemma emit_position (v : Vector2) (p : ParticleRef) (l : list ParticleRef) :
  forall h : ParticleRef -> Particle,
    positionProperty (h p) = v \/ In p l ->
    positionProperty (emit l (set_positionProperty v) h p) = v.
Proof.
  induction l as [ | q rest IH ]; intros h H; simpl.
  - destruct H as [H | []]. exact H.
  - apply IH. unfold storeParticle.
    destruct (Nat.eqb p q) eqn:E; [ now left | ].
    destruct H as [H | [H | H]]; [ now left | | now right ].
    subst q. now rewrite Nat.eqb_refl in E.
Qed.

Lemma emit_position_userControlled (v : Vector2) (p : ParticleRef)
    (l : list ParticleRef) :
  forall h : ParticleRef -> Particle,
    userControlledProperty (emit l (set_positionProperty v) h p) =
    userControlledProperty (h p).
Proof.
  induction l as [ | q rest IH ]; intros h; simpl; [ reflexivity | ].
  rewrite IH. unfold storeParticle. now destruct (Nat.eqb p q) eqn:E;
    [ apply Nat.eqb_eq in E; subst q | ].
Qed.

Lemma emit_userControlled (p : ParticleRef) (l : list ParticleRef) :
  forall h : ParticleRef -> Particle,
    userControlledProperty (h p) = false \/ In p l ->
    userControlledProperty
      (emit l (set_userControlledProperty false) h p) = false.
Proof.
  induction l as [ | q rest IH ]; intros h H; simpl.
  - destruct H as [H | []]. exact H.
  - apply IH. unfold storeParticle.
    destruct (Nat.eqb p q) eqn:E; [ now left | ].
    destruct H as [H | [H | H]]; [ now left | | now right ].
    subst q. now rewrite Nat.eqb_refl in E.
Qed.

Lemma drags_listeners (ps : list ParticleRef) :
  forall s : t,
    optionHighlightedListeners (drags ps s) =
      optionHighlightedListeners s ++ ps /\
    optionSelectedListeners (drags ps s) =
      optionSelectedListeners s ++ ps /\
    currentIndex (drags ps s) = currentIndex s /\
    choosingLocation (drags ps s) = choosingLocation s.
Proof.
  induction ps as [ | p rest IH ]; intros s; simpl.
  - now rewrite !app_nil_r.
  - destruct (IH (handleAccessibleDrag p s)) as (H1 & H2 & H3 & H4).
    rewrite H1, H2, H3, H4. simpl. now rewrite <- !app_assoc.
Qed.

(** X20. The listeners that [handleAccessibleDrag] adds are never
    removed: after it has been called for each particle of a list, any key
    at all puts every one of these particles at the choosing location of
    the option at the listener's index, and Enter or Space ends the user
    control of every one of them. The listener does not throw. *)
Theorem drag_listeners_accumulate (s : t) (ps : list ParticleRef)
    (keyCode : KeyCode) (p : ParticleRef) :
  (0 <= currentIndex s < 3)%Z ->
  In p ps ->
  exists (s' : t) (node : OptionNode),
    keydown keyCode (drags ps s) = (s', None) /\
    index optionNodes (currentIndex s') = Some node /\
    positionProperty (particles s' p) = choosingLocation s node /\
    (keyCode_eqb keyCode KEY_ENTER || keyCode_eqb keyCode KEY_SPACE = true ->
     userControlledProperty (particles s' p) = false).
Proof.
  intros Hrange Hin.
  destruct (drags_listeners ps s) as (Hh & Hs & Hi & Hc).
  assert (In p (optionHighlightedListeners (drags ps s))) as Hinh
    by (rewrite Hh; apply in_or_app; now right).
  assert (In p (optionSelectedListeners (drags ps s))) as Hins
    by (rewrite Hs; apply in_or_app; now right).
  rewrite <- Hc. rewrite <- Hi in Hrange.
  generalize dependent (drags ps s). clear. intros d Hrange Hinh Hins.
  assert (currentIndex d = 0 \/ currentIndex d = 1 \/ currentIndex d = 2)%Z
    as Hcases by lia.
  unfold keydown, setSelectValue.
  destruct (selectValueProperty d) as [ [ | [ | ] ] | ] eqn:Hv;
    destruct Hcases as [E | [E | E]]; rewrite E;
    destruct keyCode; cbn -[emit];
    rewrite ?E, ?Hv; cbn -[emit];
    do 2 eexists; (split; [ reflexivity | ]);
    (split; [ cbn -[emit]; rewrite ?E; reflexivity | ]);
    (split;
     [ cbn -[emit]; apply emit_position; now right
     | intros Hkey; try discriminate Hkey; cbn -[emit];
       rewrite emit_position_userControlled;
       apply emit_userControlled; now right ]).
Qed.

Lemma drag_listeners_accumulate_witness :
  exists (s' : t) (node : OptionNode),
    keydown KEY_TAB
      (drags [ 1%nat; 2%nat ]
         (new 85 130 (fun _ => newParticle "electron" 3))) = (s', None) /\
    positionProperty (particles s' 1%nat) = Vector2.mk 0 0.
Proof.
  destruct (drag_listeners_accumulate
              (new 85 130 (fun _ => newParticle "electron" 3))
              [ 1%nat; 2%nat ] KEY_TAB 1%nat)
    as (s' & node & Hrun & Hnode & Hpos & _).
  - simpl. lia.
  - now left.
  - exists s', node. split; [ exact Hrun | ].
    rewrite Hpos.
    injection Hrun as <-. cbn in Hnode. injection Hnode as <-.
    reflexivity.
Defined.

(** X21. After a key, the value of [selectValueProperty] is the option at
    the listener's index and the focus highlight is the one that the
    switch of its listener sets for it: the outer shell's highlight for
    the centre option, the nucleus' highlight for the outer ring, and the
    inner shell's for the inner ring. This holds from construction on,
    the highlight staying in step with the property. *)
Theorem highlight_follows_switch (s : t) (keyCode : KeyCode) :
  (0 <= currentIndex s < 3)%Z ->
  highlightInStep s ->
  exists (s' : t) (node : OptionNode),
    keydown keyCode s = (s', None) /\
    index optionNodes (currentIndex s') = Some node /\
    (0 <= currentIndex s' < 3)%Z /\
    selectValueProperty s' = Some node /\
    focusHighlight s' =
      Some match node with
           | CenterOption => ElectronOuterFocusHighlight
           | RingOption InnerRing => ElectronInnerFocusHighlight
           | RingOption OuterRing => NucleusFocusHighlight
           end /\
    highlightInStep s'.
Proof.
  intros Hrange Hstep. unfold highlightInStep in *.
  assert (currentIndex s = 0 \/ currentIndex s = 1 \/ currentIndex s = 2)%Z
    as Hcases by lia.
  unfold keydown, setSelectValue.
  destruct (selectValueProperty s) as [ [ | [ | ] ] | ] eqn:Hv;
    destruct Hcases as [E | [E | E]]; rewrite E;
    destruct keyCode; cbn -[emit];
    rewrite ?E, ?Hv; cbn -[emit];
    do 2 eexists; (split; [ reflexivity | ]); cbn -[emit];
    rewrite ?E, ?Hv, ?Hstep; cbn;
    repeat split; try lia.
Qed.

Lemma highlight_follows_switch_witness :
  exists s' : t,
    keydown KEY_UP_ARROW (new 85 130 (fun _ => newParticle "electron" 3)) =
      (s', None) /\
    selectValueProperty s' = Some (RingOption OuterRing) /\
    focusHighlight s' = Some NucleusFocusHighlight.
Proof.
  destruct (highlight_follows_switch
              (new 85 130 (fun _ => newParticle "electron" 3)) KEY_UP_ARROW)
    as (s' & node & Hrun & Hnode & _ & Hvalue & Hhighlight & _).
  - simpl. lia.
  - reflexivity.
  - exists s'. injection Hrun as <-. cbn in *. injection Hnode as <-.
    repeat split.
Defined.

End EarlierViewProperties.
